(** * ee.Image: the deferred-computation image type of the Earth Engine client

    A shallow embedding of [javascript/src/image.js].  JavaScript values are
    an inductive type, objects of the ee.ComputedObject family carry an
    identity, and the code runs in a state-and-exception monad over the
    process-wide state it touches (the class's [initialized_] flag, the
    members installed on it, the signature registry, the identity supply).

    image.js calls into files that are not part of this development
    (ee.ApiFunction, ee.Function, ee.ComputedObject, ee.Types, ee.Geometry,
    the argument promoter).  Those are either modelled from the
    specification, and marked so, or left abstract in the class [Host]. *)

From Stdlib Require Import PrimFloat.
From stdpp Require Import gmap strings list.

#[local] Set Warnings "-register-all".

(* ================================================================== *)
(** ** Values *)

(** One declared parameter of a signature: the objects
    [{'name': ..., 'type': ..., 'optional': ...}] of [getSignature]. *)
Record ArgSpec := mkArg {
  arg_name : string;
  arg_type : string;
  arg_optional : bool
}.

(** [ee.Function.Signature]: [{'name': ..., 'args': [...], 'returns': ...}]. *)
Record Signature := mkSig {
  sig_name : string;
  sig_args : list ArgSpec;
  sig_returns : string
}.

(** JavaScript values as image.js meets them.  [VObject] is a plain object
    (an object literal, GeoJSON, the [opt_map] of [expression]) with its
    properties in enumeration order.  [VComputed] is an instance of
    ee.ComputedObject or of one of its subclasses: [oid] is the object's
    identity, [cls] is what its [name()] method answers ("Image" for an
    ee.Image), and [func], [args], [varName] are its three fields. *)
Inductive value :=
| VUndefined
| VNull
| VBool (b : bool)
| VNumber (x : float)
| VString (s : string)
| VArray (elems : list value)
| VObject (props : list (string * value))
| VComputed (oid : nat) (cls : string) (func : option Func)
            (args : list (string * value)) (varName : option string)
(** What an object's [func] field holds: an ee.ApiFunction, known by its
    name, or the ee.Function that [expression] builds by hand, known by
    the call its [encode] forwards to and by what its [getSignature]
    answers. *)
with Func :=
| ApiFunction (name : string)
| CustomFunction (body : value) (signature : Signature).

(** A thrown [Error]: the message is kept as the pieces the source
    concatenates, a value appended to the text being kept as the value. *)
Inductive fragment :=
| Txt (s : string)
| Val (v : value)
| Count (n : nat)
| Args (l : list value).

Inductive exn :=
| Error (message : list fragment)
| TypeError (message : list fragment).

(* ================================================================== *)
(** ** Process-wide state and the monad *)

Record World := mkWorld {
  next_id : nat;                        (* identity of the next object built *)
  registry : gmap string Signature;     (* the signature registry, by operation name *)
  Image_initialized_ : bool;            (* ee.Image.initialized_ *)
  Image_members : gset string           (* members the binder installed on ee.Image *)
}.

(** How a JavaScript call ends: normally, or by a thrown exception. *)
Inductive completion (A : Type) :=
| Normal (a : A)
| Thrown (e : exn).
Arguments Normal {A} a.
Arguments Thrown {A} e.

(** A collaborator outside this file always completes. *)
Definition Ext (A : Type) : Type := World -> completion A * World.

(** A run of the model: [Diverges] is recursion deeper than the fuel
    given to the constructor, and is not a JavaScript exception. *)
Inductive outcome (A : Type) :=
| Returns (a : A)
| Throws (e : exn)
| Diverges.
Arguments Returns {A} a.
Arguments Throws {A} e.
Arguments Diverges {A}.

Definition M (A : Type) : Type := World -> outcome A * World.

Definition ret {A} (a : A) : M A := fun w => (Returns a, w).
Definition throw {A} (e : exn) : M A := fun w => (Throws e, w).
Definition diverge {A} : M A := fun w => (Diverges, w).

Definition bind {A B} (m : M A) (k : A -> M B) : M B :=
  fun w =>
    match m w with
    | (Returns a, w') => k a w'
    | (Throws e, w') => (Throws e, w')
    | (Diverges, w') => (Diverges, w')
    end.

Notation "'let*' x ':=' c 'in' k" := (bind c (fun x => k))
  (at level 10, x name, c at level 100, k at level 200,
   format "'[v' 'let*'  x  ':='  c  'in' '/' k ']'").
Notation "c1 '>>' c2" := (bind c1 (fun _ => c2))
  (at level 65, right associativity).

Definition lift {A} (m : Ext A) : M A :=
  fun w =>
    match m w with
    | (Normal a, w') => (Returns a, w')
    | (Thrown e, w') => (Throws e, w')
    end.

(** [try { geometry = m } catch (e) { }]: the value of [m], or [fallback]
    when [m] throws; what [m] did to the state before throwing stays. *)
Definition try_or {A} (m : M A) (fallback : A) : M A :=
  fun w =>
    match m w with
    | (Returns a, w') => (Returns a, w')
    | (Throws _, w') => (Returns fallback, w')
    | (Diverges, w') => (Diverges, w')
    end.

Definition get_world : M World := fun w => (Returns w, w).

(** [goog.array.map] with an effectful callback, left to right. *)
Fixpoint mapM {A B} (f : A -> M B) (l : list A) : M (list B) :=
  match l with
  | [] => ret []
  | x :: l' =>
      let* y := f x in
      let* ys := mapM f l' in
      ret (y :: ys)
  end.

(** [for (...) acc = f(acc, x)], left to right. *)
Fixpoint foldM {A B} (f : A -> B -> M A) (l : list B) (acc : A) : M A :=
  match l with
  | [] => ret acc
  | x :: l' => let* acc' := f acc x in foldM f l' acc'
  end.

(* ================================================================== *)
(** ** JavaScript and Closure primitives *)

(** [goog.isDef]. *)
Definition isDef (v : value) : bool :=
  match v with VUndefined => false | _ => true end.

(** The truth value of [v] in a condition. *)
Definition truthy (v : value) : bool :=
  match v with
  | VUndefined | VNull => false
  | VBool b => b
  | VNumber x => negb (PrimFloat.eqb x 0 || negb (PrimFloat.eqb x x))
  | VString s => negb (String.eqb s "")
  | VArray _ | VObject _ | VComputed _ _ _ _ _ => true
  end.

(** [x instanceof ee.ComputedObject]. *)
Definition instanceof_ComputedObject (v : value) : bool :=
  match v with VComputed _ _ _ _ _ => true | _ => false end.

(** [x instanceof ee.Image]: ee.Image has no subclass, and it is the class
    whose [name()] answers "Image". *)
Definition instanceof_Image (v : value) : bool :=
  match v with
  | VComputed _ cls _ _ _ => String.eqb cls "Image"
  | _ => false
  end.

(** [arguments[i]], [undefined] past the end. *)
Definition argument (i : nat) (arguments : list value) : value :=
  nth i arguments VUndefined.

(** [obj[key]] read and [obj[key] = v] on a plain object: an existing
    property keeps its place, a new one goes last. *)
Fixpoint obj_get (key : string) (props : list (string * value)) : option value :=
  match props with
  | [] => None
  | (k, v) :: rest => if String.eqb k key then Some v else obj_get key rest
  end.

Fixpoint obj_set (key : string) (v : value) (props : list (string * value))
  : list (string * value) :=
  match props with
  | [] => [(key, v)]
  | (k, v') :: rest =>
      if String.eqb k key then (k, v) :: rest else (k, v') :: obj_set key v rest
  end.

(* ================================================================== *)
(** ** Collaborators outside image.js *)

(** Modelled from the spec: ee.Types.isNumber, the test "value is
    numeric" of the dispatch table. *)
Definition isNumber (v : value) : bool :=
  match v with VNumber _ => true | _ => false end.

(** Modelled from the spec: ee.Types.isString, the test "value is a
    string" of the dispatch table. *)
Definition isString (v : value) : bool :=
  match v with VString _ => true | _ => false end.

(** What the specification leaves opaque: the geometry value type, the
    promotion of a value to a declared type other than Image, and the
    members of classes other than ee.Image. *)
Class Host := {
  (** [new ee.Geometry(...)] *)
  Geometry_new : list value -> Ext value;
  (** the argument promoter at a declared type other than "Image" *)
  promote_other : value -> string -> Ext value;
  (** [receiver.member(...)] on a receiver that is not an ee.Image *)
  invoke_other : value -> string -> list value -> Ext value
}.

(** Modelled from the spec: the base constructor (ee.Element, and
    ee.ComputedObject above it) reached by
    [goog.base(this, func, args, varName)]: a new vertex with the three
    fields stored as given (sharing, not copying).  The object's identity
    is drawn here: a [this] that a constructor drops by returning another
    object is never seen. *)
Definition ComputedObject_new (cls : string) (func : option Func)
    (args : list (string * value)) (varName : option string) : M value :=
  fun w =>
    (Returns (VComputed (next_id w) cls func args varName),
     mkWorld (S (next_id w)) (registry w) (Image_initialized_ w) (Image_members w)).

(** Modelled from the spec: ee.ComputedObject.construct, which the
    constructor calls when it is used without [new].  The spec writes
    every construction as the plain call [Image(...)]: the call runs the
    constructor as [new] would, on the same arguments. *)
Definition ComputedObject_construct
    (constructor : list value -> M value) (arguments : list value) : M value :=
  constructor arguments.

(** Modelled from the spec: the signature registry queried by operation
    name, as [new ee.ApiFunction(name)] and [ee.ApiFunction._call] need
    it.  A call node's operation name must exist in the registry. *)
Definition ApiFunction_lookup (name : string) : M Signature :=
  fun w =>
    match registry w !! name with
    | Some s => (Returns s, w)
    | None => (Throws (Error [Txt "Unknown built-in function name: "; Txt name]), w)
    end.

(** The operation [op] that [name] is in namespace [prefix]:
    [name = prefix ++ "." ++ op]. *)
Fixpoint strip_prefix (p s : string) : option string :=
  match p with
  | EmptyString => Some s
  | String c p' =>
      match s with
      | String d s' => if Ascii.eqb c d then strip_prefix p' s' else None
      | EmptyString => None
      end
  end.

Definition in_namespace (prefix name : string) : option string :=
  strip_prefix (prefix +:+ ".") name.

(** The member names one namespace contributes. *)
Definition bound_names (reg : gmap string Signature) (prefix prepend : string)
  : gset string :=
  list_to_set
    (omap (fun name => (fun op => prepend +:+ op) <$> in_namespace prefix name)
          (elements (dom reg))).

(** Modelled from the spec: ee.ApiFunction.importApi, the binder: for every
    signature of the registry whose namespace matches, a member named by
    the operation's name, with the prefix when one is given, is installed
    on the target type.  The target is ee.Image in both calls of this
    file, so the members are kept for that class only; [typeName] decides
    how an installed member binds its receiver when it is called, which
    nothing in image.js does. *)
Definition ApiFunction_importApi (prefix typeName prepend : string) : M unit :=
  fun w =>
    (Returns tt,
     mkWorld (next_id w) (registry w) (Image_initialized_ w)
             (Image_members w ∪ bound_names (registry w) prefix prepend)).

(** Modelled from the spec: ee.ApiFunction.clearApi, which removes all
    previously installed members. *)
Definition ApiFunction_clearApi : M unit :=
  fun w => (Returns tt, mkWorld (next_id w) (registry w) (Image_initialized_ w) ∅).

(** [ee.Image.initialized_ = b]. *)
Definition set_Image_initialized_ (b : bool) : M unit :=
  fun w => (Returns tt, mkWorld (next_id w) (registry w) b (Image_members w)).

(* ================================================================== *)
(** ** ee.Image.initialize and ee.Image.reset *)

(** Imports API functions to this class. *)
Definition initialize : M unit :=
  let* w := get_world in
  if negb (Image_initialized_ w) then
    ApiFunction_importApi "Image" "Image" "" >>
    ApiFunction_importApi "Window" "Image" "focal_" >>
    set_Image_initialized_ true
  else ret tt.

(** Removes imported API functions from this class. *)
Definition reset : M unit :=
  ApiFunction_clearApi >>
  set_Image_initialized_ false.

(* ================================================================== *)
(** ** Building call nodes, and the methods of ee.Image

    The constructor and the call machinery call each other
    ([combine_] and the promoter construct images, the constructor
    combines): the section takes the constructor as [Image_], and
    [Image_new] below closes the loop. *)

Section Methods.
Context `{Host}.
Variable Image_ : list value -> M value.

(** Modelled from the spec: the argument promoter, which ee.Function
    applies to arguments and results.  A value meant for a parameter
    declared Image is made an Image by the constructor. *)
Definition promote (v : value) (type : string) : M value :=
  if String.eqb type "Image" then Image_ [v]
  else lift (promote_other v type).

(** Modelled from the spec: [getSignature] of an ee.ApiFunction, whose
    signature is the registry's.  The function [expression] builds
    answers the signature generated for it by hand, as its source says. *)
Definition Function_getSignature (f : Func) : M Signature :=
  match f with
  | ApiFunction name => ApiFunction_lookup name
  | CustomFunction _ signature => ret signature
  end.

(** Modelled from the spec: ee.Function's naming of positional
    arguments, which are mapped to names in the signature's declared
    parameter order. *)
Fixpoint Function_nameArgs (specs : list ArgSpec) (args : list value)
    (named : list (string * value)) {struct args} : M (list (string * value)) :=
  match args, specs with
  | [], _ => ret named
  | a :: args', spec :: specs' =>
      Function_nameArgs specs' args' (obj_set (arg_name spec) a named)
  | _ :: _, [] => throw (Error [Txt "Too many arguments to function"])
  end.

(** Modelled from the spec: ee.Function's promotion of arguments: each
    supplied value is promoted against its parameter's declared type,
    in declared order; a parameter that is not optional must be
    supplied. *)
Fixpoint Function_promoteArgs (specs : list ArgSpec)
    (args : list (string * value)) (promotedArgs : list (string * value))
  : M (list (string * value)) :=
  match specs with
  | [] => ret promotedArgs
  | spec :: specs' =>
      match obj_get (arg_name spec) args with
      | Some v =>
          let* v' := promote v (arg_type spec) in
          Function_promoteArgs specs' args (obj_set (arg_name spec) v' promotedArgs)
      | None =>
          if arg_optional spec then Function_promoteArgs specs' args promotedArgs
          else throw (Error [Txt "Required argument missing: "; Txt (arg_name spec)])
      end
  end.

(** Whether [name] is a parameter of the signature. *)
Definition declared (specs : list ArgSpec) (name : string) : bool :=
  existsb (fun spec => String.eqb (arg_name spec) name) specs.

(** Modelled from the spec: ee.Function's [apply], as [func.apply(args)]
    in [expression]: applying a function to a mapping of named arguments
    builds one call node over the promoted arguments, every supplied
    name being a declared one, and the node is promoted to the
    signature's return type. *)
Definition Function_apply (f : Func) (namedArgs : list (string * value)) : M value :=
  let* signature := Function_getSignature f in
  let* promoted := Function_promoteArgs (sig_args signature) namedArgs [] in
  match find (fun kv => negb (declared (sig_args signature) (fst kv))) namedArgs with
  | Some (name, _) => throw (Error [Txt "Unrecognized argument: "; Txt name])
  | None =>
      let* node := ComputedObject_new "ComputedObject" (Some f) promoted None in
      promote node (sig_returns signature)
  end.

(** Modelled from the spec: ee.Function's call with positional
    arguments, which names them and applies. *)
Definition Function_call (f : Func) (args : list value) : M value :=
  let* signature := Function_getSignature f in
  let* namedArgs := Function_nameArgs (sig_args signature) args [] in
  Function_apply f namedArgs.

(** Modelled from the spec: [ee.ApiFunction._call(name, var_args)], the
    call of the registry's operation [name] on positional arguments. *)
Definition ApiFunction_call (name : string) (args : list value) : M value :=
  Function_call (ApiFunction name) args.

(** Modelled from the spec: [ee.ApiFunction._apply(name, namedArgs)], the
    same on a mapping of named arguments. *)
Definition ApiFunction_apply (name : string) (namedArgs : list (string * value))
  : M value :=
  Function_apply (ApiFunction name) namedArgs.

(** The loop of [select] over the spread arguments: the first element
    that is not a string, a number or a computed object. *)
Definition illegal_selector (v : value) : bool :=
  negb (isString v) && negb (isNumber v) && negb (instanceof_ComputedObject v).

(** Select bands from an image.  [this] is the receiver, [arguments]
    everything that was passed. *)
Definition select (this : value) (arguments : list value) : M value :=
  let opt_selectors := argument 0 arguments in
  let opt_names := argument 1 arguments in
  let opt_selectors := if negb (isDef opt_selectors) then VArray [] else opt_selectors in
  let args := [("input", this); ("bandSelectors", opt_selectors)] in
  if isString opt_selectors || isNumber opt_selectors then
    let opt_selectors := arguments in
    match find illegal_selector opt_selectors with
    | Some bad => throw (Error [Txt "Illegal argument to select(): "; Val bad])
    | None =>
        ApiFunction_apply "Image.select"
          (obj_set "bandSelectors" (VArray opt_selectors) args)
    end
  else if truthy opt_names then
    ApiFunction_apply "Image.select" (obj_set "newNames" opt_names args)
  else
    ApiFunction_apply "Image.select" args.

(** [receiver.select(...)]. *)
Definition invoke_select (receiver : value) (arguments : list value) : M value :=
  if instanceof_Image receiver then select receiver arguments
  else lift (invoke_other receiver "select" arguments).

(** Combine all the bands from the given images into a single image,
    with optional renaming. *)
Definition combine_ (images : list value) (opt_names : value) : M value :=
  match images with
  | [] => throw (Error [Txt "Can't combine 0 images."])
  | first :: others =>
      let* result := Image_ [first] in
      let* result :=
        foldM (fun result image => ApiFunction_call "Image.addBands" [result; image])
              others result in
      if truthy opt_names then
        invoke_select result [VArray [VString ".*"]; opt_names]
      else ret result
  end.

(** Create a 3-band image specifically for visualization. *)
Definition rgb (r g b : value) : M value :=
  combine_ [r; g; b]
    (VArray [VString "vis-red"; VString "vis-green"; VString "vis-blue"]).

(** Concatenate the given images together into a single image. *)
Definition cat (arguments : list value) : M value :=
  combine_ arguments VNull.

(** The hand-generated signature of [expression]. *)
Definition expression_signature (vars : list string) : Signature :=
  {| sig_name := "";
     sig_args := map (fun name => mkArg name "Image" false) vars;
     sig_returns := "Image" |}.

(** The loop [for (var name in opt_map)] of [expression]. *)
Fixpoint expression_vars (entries : list (string * value))
    (vars : list string) (args : list (string * value))
  : M (list string * list (string * value)) :=
  match entries with
  | [] => ret (vars, args)
  | (name, v) :: entries' =>
      let* image := Image_ [v] in
      expression_vars entries' (vars ++ [name]) (obj_set name image args)
  end.

(** Evaluates an expression on an image.  [opt_map] is an object of
    named inputs, or absent. *)
Definition expression (this : value) (expression : value)
    (opt_map : option (list (string * value))) : M value :=
  let argName := "DEFAULT_EXPRESSION_IMAGE" in
  let vars := [argName] in
  let args := [(argName, this)] in
  let* va :=
    match opt_map with
    | Some entries => expression_vars entries vars args
    | None => ret (vars, args)
    end in
  let vars := fst va in
  let args := snd va in
  let* body :=
    ApiFunction_call "Image.parseExpression"
      [expression; VString argName; VArray (map VString vars)] in
  let func := CustomFunction body (expression_signature vars) in
  Function_apply func args.

(** Clips an image by a Geometry, Feature or FeatureCollection. *)
Definition clip (this : value) (geometry : value) : M value :=
  let* geometry := try_or (lift (Geometry_new [geometry])) geometry in
  ApiFunction_call "Image.clip" [this; geometry].

(** The body of the constructor, [new ee.Image(...)]. *)
Definition Image_body (arguments : list value) : M value :=
  let opt_args := argument 0 arguments in
  if instanceof_Image opt_args then ret opt_args
  else
    initialize >>
    let argCount := length arguments in
    if (argCount =? 0) || ((argCount =? 1) && negb (isDef opt_args)) then
      let* image := Image_ [VNumber 0] in
      let* mask := Image_ [VNumber 0] in
      ComputedObject_new "Image" (Some (ApiFunction "Image.mask"))
        [("image", image); ("mask", mask)] None
    else if argCount =? 1 then
      if isNumber opt_args then
        ComputedObject_new "Image" (Some (ApiFunction "Image.constant"))
          [("value", opt_args)] None
      else if isString opt_args then
        ComputedObject_new "Image" (Some (ApiFunction "Image.load"))
          [("id", opt_args)] None
      else
        match opt_args with
        | VArray elems =>
            let* images := mapM (fun elem => Image_ [elem]) elems in
            combine_ images VUndefined
        | VComputed _ cls func args varName =>
            if String.eqb cls "Array" then
              ComputedObject_new "Image" (Some (ApiFunction "Image.constant"))
                [("value", opt_args)] None
            else
              ComputedObject_new "Image" func args varName
        | _ =>
            throw (Error [Txt "Unrecognized argument type to convert to an Image: ";
                          Val opt_args])
        end
    else if argCount =? 2 then
      let id := argument 0 arguments in
      let version := argument 1 arguments in
      if isString id && isNumber version then
        ComputedObject_new "Image" (Some (ApiFunction "Image.load"))
          [("id", id); ("version", version)] None
      else
        throw (Error [Txt "Unrecognized argument types to convert to an Image: ";
                      Args arguments])
    else
      throw (Error [Txt "The Image constructor takes at most 2 arguments (";
                    Count argCount; Txt " given)"]).
End Methods.

(** [new ee.Image(...)].  Each nested construction spends one unit of
    fuel. *)
Fixpoint Image_new `{Host} (fuel : nat) (arguments : list value) : M value :=
  match fuel with
  | 0 => diverge
  | S fuel' => Image_body (Image_new fuel') arguments
  end.

(** [ee.Image(...)] called as a function. *)
Definition Image `{Host} (fuel : nat) (arguments : list value) : M value :=
  ComputedObject_construct (Image_new fuel) arguments.

(** The registry replaced from outside (it is supplied externally). *)
Definition with_registry (reg : gmap string Signature) (w : World) : World :=
  mkWorld (next_id w) reg (Image_initialized_ w) (Image_members w).

(** The state [initialize] leaves. *)
Definition initialized (w : World) : World := snd (initialize w).

(** [addBands(result, image)] as [combine_] calls it. *)
Definition addBands `{Host} (fuel : nat) (result image : value) : M value :=
  ApiFunction_call (Image_new fuel) "Image.addBands" [result; image].

(** The graph [addBands(... addBands(first, i1) ..., in)] written out,
    as the specification describes the result of combining: each node
    is an [Image.addBands] call whose [dst] argument is the graph built
    so far and whose [src] argument is the next image.  A call draws
    two identities from [id] on (the call node, and the image that
    takes its place), and the image has the second. *)
Fixpoint left_fold_addBands (dst src : string) (id : nat) (result : value)
    (images : list value) : value :=
  match images with
  | [] => result
  | image :: images' =>
      left_fold_addBands dst src (2 + id)
        (VComputed (1 + id) "Image" (Some (ApiFunction "Image.addBands"))
           [(dst, result); (src, image)] None)
        images'
  end.

(** An operation declared with two leading parameters of types [t1] and
    [t2], named [n1] and [n2], every further parameter optional, no
    parameter name declared twice, and return type Image. *)
Definition declares (reg : gmap string Signature) (name : string)
    (n1 t1 n2 t2 : string) : Prop :=
  exists s o1 o2 rest,
    reg !! name = Some s /\
    sig_args s = mkArg n1 t1 o1 :: mkArg n2 t2 o2 :: rest /\
    NoDup (n1 :: n2 :: map arg_name rest) /\
    Forall (fun a => arg_optional a = true) rest /\
    sig_returns s = "Image".

(* ------------------------------------------------------------------ *)
(** *** A concrete host and registry, for examples *)

(** A geometry type that accepts an ee.Geometry and any object with a
    string [type] property, and throws on everything else. *)
Definition sample_geometry (arguments : list value) : Ext value :=
  fun w =>
    match argument 0 arguments with
    | VObject props =>
        match obj_get "type" props with
        | Some (VString _) =>
            (Normal (VComputed (next_id w) "Geometry" None props None),
             mkWorld (S (next_id w)) (registry w) (Image_initialized_ w) (Image_members w))
        | _ => (Thrown (Error [Txt "Invalid GeoJSON geometry."]), w)
        end
    | VComputed _ "Geometry" _ _ _ as g => (Normal g, w)
    | _ => (Thrown (Error [Txt "Invalid GeoJSON geometry."]), w)
    end.

Definition sample_host : Host := {|
  Geometry_new := sample_geometry;
  promote_other := fun v _ w => (Normal v, w);
  invoke_other := fun _ member _ w =>
    (Thrown (TypeError [Txt member; Txt " is not a function"]), w)
|}.

Definition sample_registry : gmap string Signature :=
  list_to_map
    [("Image.addBands",
      mkSig "Image.addBands"
        [mkArg "dstImg" "Image" false; mkArg "srcImg" "Image" false;
         mkArg "names" "List" true; mkArg "overwrite" "Boolean" true] "Image");
     ("Image.select",
      mkSig "Image.select"
        [mkArg "input" "Image" false; mkArg "bandSelectors" "List" false;
         mkArg "newNames" "List" true] "Image");
     ("Image.clip",
      mkSig "Image.clip"
        [mkArg "input" "Image" false; mkArg "geometry" "Object" true] "Image");
     ("Image.parseExpression",
      mkSig "Image.parseExpression"
        [mkArg "expression" "String" false; mkArg "argName" "String" true;
         mkArg "vars" "List" true] "Function");
     ("Window.max",
      mkSig "Window.max"
        [mkArg "image" "Image" false; mkArg "radius" "Float" false] "Image")].

Definition sample_world : World := mkWorld 0 sample_registry false ∅.

(** An image as the constructor builds it from a number. *)
Definition constant_image (oid : nat) (x : float) : value :=
  VComputed oid "Image" (Some (ApiFunction "Image.constant")) [("value", VNumber x)] None.

(** The state after [k] more objects were built. *)
Definition allocated (k : nat) (w : World) : World :=
  mkWorld (k + next_id w) (registry w) (Image_initialized_ w) (Image_members w).

(** The empty image: two constant images of 0 and the mask over them. *)
Definition empty_image (oid : nat) : value :=
  VComputed (2 + oid) "Image" (Some (ApiFunction "Image.mask"))
    [("image", constant_image oid 0); ("mask", constant_image (1 + oid) 0)] None.

(** [m] leaves the registry [R] as it is, however it ends, and what it
    returns satisfies [Q]. *)
Definition keeps {A} (R : gmap string Signature) (m : M A) (Q : A -> Prop) : Prop :=
  forall w, registry w = R ->
    registry (snd (m w)) = R /\ forall a, fst (m w) = Returns a -> Q a.

Definition is_image (v : value) : Prop := instanceof_Image v = true.

(** [m] leaves the registry [R] as it is, does not run out of fuel, and
    what it returns satisfies [Q]. *)
Definition settles {A} (R : gmap string Signature) (m : M A) (Q : A -> Prop) : Prop :=
  forall w, registry w = R ->
    registry (snd (m w)) = R /\ fst (m w) <> Diverges /\
    forall a, fst (m w) = Returns a -> Q a.

(** Fuel that suffices to construct an image from [v]: the nesting of
    constructor calls. *)
Fixpoint cost (v : value) : nat :=
  match v with
  | VUndefined => 2
  | VArray elems => S (Nat.max 1 (list_max (map cost elems)))
  | _ => 1
  end.

(** The single arguments the constructor has no form for: [null], a
    boolean, a plain object. *)
Definition unrecognized (v : value) : bool :=
  match v with
  | VNull | VBool _ | VObject _ => true
  | _ => false
  end.

(** [Image.select] declared as [select] calls it: [input], an image,
    then [bandSelectors] of type [t2] and [newNames] of type [t3], the
    latter optional as are all further parameters, returning an image. *)
Definition select_declared (reg : gmap string Signature) (t2 t3 : string) : Prop :=
  exists s o1 o2 rest,
    reg !! "Image.select" = Some s /\
    sig_args s = mkArg "input" "Image" o1 :: mkArg "bandSelectors" t2 o2
                 :: mkArg "newNames" t3 true :: rest /\
    NoDup ("input" :: "bandSelectors" :: "newNames" :: map arg_name rest) /\
    Forall (fun a => arg_optional a = true) rest /\
    sig_returns s = "Image".

(* ------------------------------------------------------------------ *)
(** *** The imperative methods: getMap, getDownloadURL, getThumbURL *)

(** The serializer and ee.data, which the specification leaves outside:
    [this.serialize()], and the calls of ee.data with and without a
    callback.  A callback takes the data and the error. *)
Class Service := {
  serialize : value -> Ext value;
  data_getMapId : list (string * value) -> Ext (list (string * value));
  data_getMapId_callback :
    list (string * value) -> (value -> value -> Ext value) -> Ext value;
  data_getDownloadId : list (string * value) -> Ext value;
  data_getDownloadId_callback :
    list (string * value) -> (value -> value -> Ext value) -> Ext value;
  data_makeDownloadUrl : value -> Ext value;
  data_getThumbId : list (string * value) -> Ext value;
  data_makeThumbUrl : value -> Ext value
}.

(** Sequencing of calls that always complete. *)
Definition ext_bind {A B} (m : Ext A) (k : A -> Ext B) : Ext B :=
  fun w =>
    match m w with
    | (Normal a, w') => k a w'
    | (Thrown e, w') => (Thrown e, w')
    end.

(** [params ? goog.object.clone(params) : {}]: the parameters are an
    object or absent, and the clone of an object has its properties. *)
Definition clone_or_empty (params : option (list (string * value)))
  : list (string * value) :=
  match params with
  | Some props => props
  | None => []
  end.

(** The function [getMap] hands to ee.data.getMapId: it puts the image
    object into the response, when there is one.  The data is an object
    or nothing; on a primitive the assignment has no effect. *)
Definition getMap_callback (this : value) (opt_callback : value -> value -> Ext value)
    (data error : value) : Ext value :=
  if truthy data then
    match data with
    | VObject props => opt_callback (VObject (obj_set "image" this props)) error
    | _ => opt_callback data error
    end
  else opt_callback data error.

(** An imperative function that returns a map id and token, suitable for
    generating a Map overlay. *)
Definition getMap `{Service} (this : value)
    (opt_visParams : option (list (string * value)))
    (opt_callback : option (value -> value -> Ext value)) : M value :=
  let request := clone_or_empty opt_visParams in
  let* image := lift (serialize this) in
  let request := obj_set "image" image request in
  match opt_callback with
  | Some callback =>
      lift (data_getMapId_callback request (getMap_callback this callback)) >>
      ret VUndefined
  | None =>
      let* response := lift (data_getMapId request) in
      ret (VObject (obj_set "image" this response))
  end.

(** The function [getDownloadURL] hands to ee.data.getDownloadId. *)
Definition getDownloadURL_callback `{Service}
    (opt_callback : value -> value -> Ext value) (downloadId error : value)
  : Ext value :=
  if truthy downloadId then
    ext_bind (data_makeDownloadUrl downloadId) (fun url => opt_callback url VUndefined)
  else opt_callback VNull error.

(** Get a Download URL. *)
Definition getDownloadURL `{Service} (this : value)
    (params : option (list (string * value)))
    (opt_callback : option (value -> value -> Ext value)) : M value :=
  let request := clone_or_empty params in
  let* image := lift (serialize this) in
  let request := obj_set "image" image request in
  match opt_callback with
  | Some callback =>
      lift (data_getDownloadId_callback request (getDownloadURL_callback callback)) >>
      ret VUndefined
  | None =>
      let* downloadId := lift (data_getDownloadId request) in
      lift (data_makeDownloadUrl downloadId)
  end.

(** Get a thumbnail URL for this image. *)
Definition getThumbURL `{Service} (this : value)
    (params : option (list (string * value))) : M value :=
  let request := clone_or_empty params in
  let* image := lift (serialize this) in
  let request := obj_set "image" image request in
  let* thumbId := lift (data_getThumbId request) in
  lift (data_makeThumbUrl thumbId).

(** A service for examples: the serialization is the text "json", an id
    is the request itself, a URL is its id, and a callback is called at
    once with no data and the error "offline". *)
Definition sample_service : Service := {|
  serialize := fun _ w => (Normal (VString "json"), w);
  data_getMapId := fun request w => (Normal (("mapid", VString "m1") :: request), w);
  data_getMapId_callback := fun _ callback => callback VNull (VString "offline");
  data_getDownloadId := fun request w => (Normal (VObject request), w);
  data_getDownloadId_callback := fun _ callback => callback VNull (VString "offline");
  data_makeDownloadUrl := fun id w => (Normal id, w);
  data_getThumbId := fun request w => (Normal (VObject request), w);
  data_makeThumbUrl := fun id w => (Normal id, w)
|}.

(* ================================================================== *)
(** * Properties *)

(** ** The monad *)

Lemma bind_ret_l {A B} (a : A) (k : A -> M B) w : bind (ret a) k w = k a w.
Proof. reflexivity. Qed.

Lemma bind_assoc {A B C} (m : M A) (k : A -> M B) (k' : B -> M C) w :
  bind (bind m k) k' w = bind m (fun a => bind (k a) k') w.
Proof. unfold bind. destruct (m w) as [[a| e |] w']; reflexivity. Qed.

Lemma bind_returns {A B} (m : M A) (k : A -> M B) w a w' :
  m w = (Returns a, w') -> bind m k w = k a w'.
Proof. unfold bind. intros ->. reflexivity. Qed.

Lemma bind_ext {A B} (m : M A) (k k' : A -> M B) w :
  (forall a w', k a w' = k' a w') -> bind m k w = bind m k' w.
Proof. intros E. unfold bind. destruct (m w) as [[a| e |] w']; auto. Qed.

(** ** initialize and reset *)

Lemma initialize_run w : initialize w = (Returns tt, initialized w).
Proof.
  unfold initialized, initialize, bind, get_world.
  destruct (Image_initialized_ w); reflexivity.
Qed.

Lemma initialized_off w :
  Image_initialized_ w = false ->
  initialized w =
    mkWorld (next_id w) (registry w) true
      (Image_members w ∪ bound_names (registry w) "Image" ""
                       ∪ bound_names (registry w) "Window" "focal_").
Proof.
  intros E. unfold initialized, initialize, bind, get_world. rewrite E. reflexivity.
Qed.

Lemma initialized_on w : Image_initialized_ w = true -> initialized w = w.
Proof.
  intros E. unfold initialized, initialize, bind, get_world. rewrite E. reflexivity.
Qed.

Lemma initialized_flag w : Image_initialized_ (initialized w) = true.
Proof.
  destruct (Image_initialized_ w) eqn:E.
  - rewrite initialized_on; assumption.
  - rewrite initialized_off by assumption. reflexivity.
Qed.

Lemma initialized_idem w : initialized (initialized w) = initialized w.
Proof. apply initialized_on, initialized_flag. Qed.

Lemma initialized_next_id w : next_id (initialized w) = next_id w.
Proof.
  destruct (Image_initialized_ w) eqn:E.
  - rewrite initialized_on; auto.
  - rewrite initialized_off by assumption. reflexivity.
Qed.

Lemma initialized_registry w : registry (initialized w) = registry w.
Proof.
  destruct (Image_initialized_ w) eqn:E.
  - rewrite initialized_on; auto.
  - rewrite initialized_off by assumption. reflexivity.
Qed.

Lemma initialize_then {A} (k : M A) w : (initialize >> k) w = k (initialized w).
Proof. unfold bind. rewrite initialize_run. reflexivity. Qed.

Lemma strip_prefix_spec p s r : strip_prefix p s = Some r <-> s = p +:+ r.
Proof.
  revert s. induction p as [|c p IH]; intros s; simpl.
  - split; [intros [= ->] | intros ->]; reflexivity.
  - destruct s as [|d s]; [split; discriminate|].
    destruct (Ascii.eqb_spec c d) as [->|Hne].
    + rewrite IH. split; [intros -> | intros [= ->]]; reflexivity.
    + split; [discriminate | intros [= Hd _]; congruence].
Qed.

Lemma string_app_assoc (a b c : string) : (a +:+ b) +:+ c = a +:+ (b +:+ c).
Proof.
  induction a as [|x a IH]; [reflexivity|].
  change (String x ((a +:+ b) +:+ c) = String x (a +:+ (b +:+ c))).
  rewrite IH. reflexivity.
Qed.

(** The members a namespace contributes are exactly the names of its
    operations, with the prefix. *)
Lemma elem_of_bound_names reg prefix prepend m :
  m ∈ bound_names reg prefix prepend <->
  exists op, is_Some (reg !! (prefix +:+ "." +:+ op)) /\ m = prepend +:+ op.
Proof.
  unfold bound_names, in_namespace.
  rewrite elem_of_list_to_set, list_elem_of_omap. split.
  - intros (name & Hin & Hm).
    apply elem_of_elements, elem_of_dom in Hin.
    destruct (strip_prefix (prefix +:+ ".") name) as [op|] eqn:E; [|discriminate].
    injection Hm as <-. apply strip_prefix_spec in E. subst name.
    exists op. split; [|reflexivity].
    rewrite <- string_app_assoc. assumption.
  - intros (op & Hin & ->).
    exists (prefix +:+ "." +:+ op). split.
    + apply elem_of_elements, elem_of_dom. assumption.
    + rewrite <- string_app_assoc.
      rewrite (proj2 (strip_prefix_spec _ _ op)); reflexivity.
Qed.

(** C9: a second [initialize] without a [reset] in between is a no-op:
    the installed members, the initialized flag and the rest of the state
    are unchanged, also when the registry changed in between.  [reset]
    clears the flag and removes the installed members, and an
    [initialize] after it installs the members named by the registry as
    it is then. *)
Theorem initialize_idempotent_reset_rebinds (w : World) (reg : gmap string Signature) :
  initialize (snd (initialize w)) = (Returns tt, snd (initialize w)) /\
  initialize (with_registry reg (snd (initialize w))) =
    (Returns tt, with_registry reg (snd (initialize w)))  /\
  fst (reset w) = Returns tt /\
  Image_initialized_ (snd (reset w)) = false /\
  Image_members (snd (reset w)) = ∅ /\
  initialize (with_registry reg (snd (reset w))) =
    (Returns tt,
     mkWorld (next_id w) reg true
       (bound_names reg "Image" "" ∪ bound_names reg "Window" "focal_")).
Proof.
    split; [|split; [|split; [|split; [|split]]]]; try reflexivity.
  - fold (initialized w). rewrite initialize_run, initialized_idem. reflexivity.
  - fold (initialized w). rewrite initialize_run. f_equal.
    apply initialized_on, initialized_flag.
  - rewrite initialize_run. f_equal.
    rewrite initialized_off by reflexivity. simpl.
    f_equal. rewrite (left_id_L ∅ (∪)). reflexivity.
Qed.

(** ** The constructor on literals *)

Lemma Image_new_number `{Host} fuel (x : float) w :
  Image_new (S fuel) [VNumber x] w =
    (Returns (constant_image (next_id w) x), allocated 1 (initialized w)).
Proof.
  simpl. unfold Image_body. simpl. rewrite initialize_then.
  unfold ComputedObject_new, constant_image, allocated.
  rewrite initialized_next_id. reflexivity.
Qed.

Lemma allocated_initialized k w : initialized (allocated k (initialized w)) = allocated k (initialized w).
Proof. apply initialized_on. simpl. apply initialized_flag. Qed.

Lemma Image_body_empty `{Host} fuel arguments w :
  (length arguments =? 0) || ((length arguments =? 1) && negb (isDef (argument 0 arguments))) = true ->
  Image_new (S (S fuel)) arguments w =
    (Returns (empty_image (next_id w)), allocated 3 (initialized w)).
Proof.
  intros E.
  assert (Hi : instanceof_Image (argument 0 arguments) = false).
  { destruct arguments as [|a [|b l]]; try discriminate E; [reflexivity|].
    destruct a; try discriminate E; reflexivity. }
  change (Image_new (S (S fuel)) arguments) with (Image_body (Image_new (S fuel)) arguments).
  unfold Image_body. rewrite Hi, initialize_then, E.
  unfold bind. rewrite Image_new_number, initialized_idem.
  rewrite Image_new_number, allocated_initialized.
  unfold ComputedObject_new, empty_image, allocated. simpl.
  rewrite !initialized_next_id. reflexivity.
Qed.

(** C1: the constructor applied to a value that is already an ee.Image,
    with [new] or as a function, returns that very object (same
    identity, same fields); nothing is built and the state does not
    change. *)
Theorem Image_of_Image_is_identity `{Host} (fuel : nat) (x : value)
    (others : list value) (w : World) :
  instanceof_Image x = true ->
  Image_new (S fuel) (x :: others) w = (Returns x, w) /\
  Image (S fuel) (x :: others) w = (Returns x, w).
Proof.
  intros Hx. unfold Image, ComputedObject_construct. simpl.
  unfold Image_body, argument. simpl. rewrite Hx. split; reflexivity.
Qed.

(** C2: on literal arguments the constructor builds fixed call nodes:
    [Image(n)] is [Image.constant] with [value = n], [Image(s)] is
    [Image.load] with [id = s], [Image(s, v)] is [Image.load] with
    [id = s] and [version = v], and [Image()] is [Image.mask] over two
    constant images of 0. *)
Theorem Image_of_literals `{Host} (fuel : nat) (n v : float) (s : string) (w : World) :
  Image_new (S fuel) [VNumber n] w =
    (Returns (VComputed (next_id w) "Image" (Some (ApiFunction "Image.constant"))
                [("value", VNumber n)] None),
     allocated 1 (initialized w)) /\
  Image_new (S fuel) [VString s] w =
    (Returns (VComputed (next_id w) "Image" (Some (ApiFunction "Image.load"))
                [("id", VString s)] None),
     allocated 1 (initialized w)) /\
  Image_new (S fuel) [VString s; VNumber v] w =
    (Returns (VComputed (next_id w) "Image" (Some (ApiFunction "Image.load"))
                [("id", VString s); ("version", VNumber v)] None),
     allocated 1 (initialized w)) /\
  Image_new (S (S fuel)) [] w =
    (Returns (VComputed (2 + next_id w) "Image" (Some (ApiFunction "Image.mask"))
                [("image", VComputed (next_id w) "Image"
                             (Some (ApiFunction "Image.constant"))
                             [("value", VNumber 0)] None);
                 ("mask", VComputed (1 + next_id w) "Image"
                            (Some (ApiFunction "Image.constant"))
                            [("value", VNumber 0)] None)] None),
     allocated 3 (initialized w)).
Proof.
  split; [apply Image_new_number|].
  split; [|split].
  - simpl. unfold Image_body. simpl. rewrite initialize_then.
    unfold ComputedObject_new, allocated. rewrite initialized_next_id. reflexivity.
  - simpl. unfold Image_body. simpl. rewrite initialize_then.
    unfold ComputedObject_new, allocated. rewrite initialized_next_id. reflexivity.
  - apply Image_body_empty. reflexivity.
Qed.

(** C10: [Image(undefined)], one argument that is undefined, is treated
    as the call without arguments: it runs exactly as [Image()] does, and
    builds the transparent image [mask(image = constant(0),
    mask = constant(0))]. *)
Theorem Image_of_undefined `{Host} (fuel : nat) (w : World) :
  Image_new fuel [VUndefined] w = Image_new fuel [] w /\
  Image_new (S (S fuel)) [VUndefined] w =
    (Returns (VComputed (2 + next_id w) "Image" (Some (ApiFunction "Image.mask"))
                [("image", constant_image (next_id w) 0);
                 ("mask", constant_image (1 + next_id w) 0)] None),
     allocated 3 (initialized w)).
Proof.
  split.
  - destruct fuel as [|fuel]; reflexivity.
  - apply Image_body_empty. reflexivity.
Qed.

(** ** combine_ and select *)

(** C8: combining an empty sequence of images throws
    [Error("Can't combine 0 images.")] at once, whatever the list of new
    names: no node is built and the state is unchanged.  So do [cat()]
    and, once the class is initialized, [Image([])]. *)
Theorem combine_empty_throws `{Host} (Image_ : list value -> M value)
    (opt_names : value) (fuel : nat) (w : World) :
  combine_ Image_ [] opt_names w =
    (Throws (Error [Txt "Can't combine 0 images."]), w) /\
  cat Image_ [] w =
    (Throws (Error [Txt "Can't combine 0 images."]), w) /\
  Image_new (S fuel) [VArray []] w =
    (Throws (Error [Txt "Can't combine 0 images."]), initialized w) /\
  next_id (initialized w) = next_id w.
Proof.
  split; [reflexivity|]. split; [reflexivity|]. split.
  - simpl. unfold Image_body. simpl. rewrite initialize_then. reflexivity.
  - apply initialized_next_id.
Qed.

Lemma find_illegal_none ss :
  forallb (fun s => isString s || isNumber s) ss = true ->
  find illegal_selector ss = None.
Proof.
  induction ss as [|s ss IH]; simpl; [reflexivity|].
  intros [Hs Hss]%andb_prop. unfold illegal_selector at 1.
  destruct s; try discriminate Hs; simpl; auto.
Qed.

Lemma select_list `{Host} Image_ this (l : list value) w :
  select Image_ this [VArray l] w =
    ApiFunction_apply Image_ "Image.select"
      [("input", this); ("bandSelectors", VArray l)] w.
Proof. reflexivity. Qed.

(** C5: when every positional argument of [select] is a string or a
    number, the call is the call with the one list of them: both apply
    [Image.select] to [input = this] and [bandSelectors = [s1, ..., sn]]. *)
Theorem select_spread `{Host} (Image_ : list value -> M value) (this : value)
    (ss : list value) (w : World) :
  forallb (fun s => isString s || isNumber s) ss = true ->
  select Image_ this ss w = select Image_ this [VArray ss] w /\
  select Image_ this ss w =
    ApiFunction_apply Image_ "Image.select"
      [("input", this); ("bandSelectors", VArray ss)] w.
Proof.
  intros Hss. rewrite select_list.
  assert (select Image_ this ss w =
          ApiFunction_apply Image_ "Image.select"
            [("input", this); ("bandSelectors", VArray ss)] w) as E.
  { destruct ss as [|s ss']; [reflexivity|].
    pose proof Hss as [Hs _]%andb_prop.
    unfold select. cbv zeta. change (argument 0 (s :: ss')) with s.
    replace (negb (isDef s)) with false by (destruct s; try discriminate Hs; reflexivity).
    rewrite Hs, (find_illegal_none _ Hss). reflexivity. }
  split; assumption.
Qed.

(** C6, as the code has it: the elements are checked only in the spread
    form.  When the first argument is a string or a number and some
    positional argument is neither a string, a number nor a computed
    object, [select] throws [Error("Illegal argument to select(): " +
    element)] for the first such element, at once and with the state
    unchanged.  A list passed as the first argument is not examined:
    it goes to [Image.select] as [bandSelectors] as it is. *)
Theorem select_checks_spread_only `{Host} (Image_ : list value -> M value)
    (this first : value) (others l : list value) (bad : value) (w : World) :
  isString first || isNumber first = true ->
  find illegal_selector (first :: others) = Some bad ->
  select Image_ this (first :: others) w =
    (Throws (Error [Txt "Illegal argument to select(): "; Val bad]), w) /\
  select Image_ this [VArray l] w =
    ApiFunction_apply Image_ "Image.select"
      [("input", this); ("bandSelectors", VArray l)] w.
Proof.
  intros Hfirst Hbad. split; [|apply select_list].
  unfold select. cbv zeta. change (argument 0 (first :: others)) with first.
  replace (negb (isDef first)) with false
    by (destruct first; try discriminate Hfirst; reflexivity).
  rewrite Hfirst, Hbad. reflexivity.
Qed.

(** ** Call nodes *)

Lemma bind_ret_r {A} (m : M A) w : bind m ret w = m w.
Proof. unfold bind, ret. destruct (m w) as [[a| e |] w']; reflexivity. Qed.

Lemma obj_get_app_r key (done todo : list (string * value)) :
  key ∉ map fst done -> obj_get key (done ++ todo) = obj_get key todo.
Proof.
  induction done as [|[k v] done IH]; simpl; [reflexivity|].
  intros Hk. apply not_elem_of_cons in Hk as [Hne Hk].
  destruct (String.eqb_spec k key); [congruence | auto].
Qed.

Lemma obj_get_head key v (rest : list (string * value)) :
  obj_get key ((key, v) :: rest) = Some v.
Proof. simpl. rewrite String.eqb_refl. reflexivity. Qed.

Lemma obj_set_fresh key v (props : list (string * value)) :
  key ∉ map fst props -> obj_set key v props = props ++ [(key, v)].
Proof.
  induction props as [|[k v'] props IH]; simpl; [reflexivity|].
  intros Hk. apply not_elem_of_cons in Hk as [Hne Hk].
  destruct (String.eqb_spec k key); [congruence|]. rewrite IH; auto.
Qed.

Lemma obj_get_absent key (props : list (string * value)) :
  key ∉ map fst props -> obj_get key props = None.
Proof.
  induction props as [|[k v'] props IH]; simpl; [reflexivity|].
  intros Hk. apply not_elem_of_cons in Hk as [Hne Hk].
  destruct (String.eqb_spec k key); [congruence | auto].
Qed.

Section Calls.
Context `{Host}.
Variable Image_ : list value -> M value.

(** Optional parameters for which nothing was supplied are skipped. *)
Lemma promoteArgs_skipped rest named acc w :
  Forall (fun a => arg_optional a = true) rest ->
  (forall a, a ∈ rest -> arg_name a ∉ map fst named) ->
  Function_promoteArgs Image_ rest named acc w = (Returns acc, w).
Proof.
  induction rest as [|a rest IH]; intros Hopt Hnames; simpl; [reflexivity|].
  apply Forall_cons in Hopt as [Ha Hopt].
  rewrite obj_get_absent by (apply Hnames; left).
  rewrite Ha. apply IH; [assumption|].
  intros b Hb. apply Hnames. right. assumption.
Qed.

(** A call with two positional arguments of a declared operation:
    both are promoted, in order, the node is built over them, and the
    node is promoted to Image. *)
Lemma ApiFunction_call_2 name n1 t1 n2 t2 x y w :
  declares (registry w) name n1 t1 n2 t2 ->
  ApiFunction_call Image_ name [x; y] w =
    (let* x' := promote Image_ x t1 in
     let* y' := promote Image_ y t2 in
     let* node := ComputedObject_new "ComputedObject" (Some (ApiFunction name))
                    [(n1, x'); (n2, y')] None in
     promote Image_ node "Image") w.
Proof.
  intros (s & o1 & o2 & rest & Hs & Hargs & Hnd & Hopt & Hret).
  apply NoDup_cons in Hnd as [Hn1 Hnd]. apply NoDup_cons in Hnd as [Hn2 Hnd].
  apply not_elem_of_cons in Hn1 as [Hne Hn1].
  assert (Hneb : String.eqb n1 n2 = false) by (apply String.eqb_neq; assumption).
  assert (Hneb' : String.eqb n2 n1 = false) by (apply String.eqb_neq; congruence).
  assert (Hlook : ApiFunction_lookup name w = (Returns s, w)).
  { unfold ApiFunction_lookup. rewrite Hs. reflexivity. }
  unfold ApiFunction_call, Function_call. simpl Function_getSignature.
  rewrite (bind_returns _ _ _ _ _ Hlook), Hargs. simpl Function_nameArgs.
  rewrite Hneb, bind_ret_l.
  unfold Function_apply. simpl Function_getSignature.
  rewrite (bind_returns _ _ _ _ _ Hlook), Hargs, Hret.
  simpl Function_promoteArgs. rewrite String.eqb_refl. simpl arg_type.
  rewrite bind_assoc. apply bind_ext. intros x' w1.
  rewrite Hneb, String.eqb_refl, bind_assoc. apply bind_ext. intros y' w2.
  rewrite (bind_returns _ _ _ (([(n1, x'); (n2, y')]) : list (string * value)) w2).
  - unfold declared. simpl. rewrite !String.eqb_refl. simpl.
    rewrite orb_true_r. reflexivity.
  - apply promoteArgs_skipped; [assumption|].
    intros a Ha. simpl. intros Hin.
    apply elem_of_cons in Hin as [E|Hin].
    + apply Hn1. rewrite <- E. apply list_elem_of_fmap_2. assumption.
    + apply elem_of_cons in Hin as [E|Hin]; [|inversion Hin].
      apply Hn2. rewrite <- E. apply list_elem_of_fmap_2. assumption.
Qed.
End Calls.

(** ** What the constructor returns *)

Lemma keeps_ret {A} R (a : A) (Q : A -> Prop) : Q a -> keeps R (ret a) Q.
Proof. intros Ha w Hw. split; [assumption|]. intros b [= <-]. assumption. Qed.

Lemma keeps_throw {A} R e (Q : A -> Prop) : keeps R (throw e) Q.
Proof. intros w Hw. split; [assumption | discriminate]. Qed.

Lemma keeps_diverge {A} R (Q : A -> Prop) : keeps R diverge Q.
Proof. intros w Hw. split; [assumption | discriminate]. Qed.

Lemma keeps_bind {A B} R (m : M A) (k : A -> M B) (Q : A -> Prop) (Q' : B -> Prop) :
  keeps R m Q -> (forall a, Q a -> keeps R (k a) Q') -> keeps R (bind m k) Q'.
Proof.
  intros Hm Hk w Hw. unfold bind. specialize (Hm w Hw).
  destruct (m w) as [[a| e |] w']; simpl in *.
  - destruct Hm as [Hw' Ha]. apply Hk; auto.
  - split; [tauto | discriminate].
  - split; [tauto | discriminate].
Qed.

Lemma keeps_weaken {A} R (m : M A) (Q Q' : A -> Prop) :
  keeps R m Q -> (forall a, Q a -> Q' a) -> keeps R m Q'.
Proof. intros Hm HQ w Hw. destruct (Hm w Hw) as [Hr Ha]. split; auto. Qed.

Lemma keeps_ext {A} R (m m' : M A) (Q : A -> Prop) :
  (forall w, registry w = R -> m w = m' w) -> keeps R m' Q -> keeps R m Q.
Proof. intros E Hm w Hw. rewrite (E w Hw). apply Hm. assumption. Qed.

Lemma keeps_new R cls func args varName :
  keeps R (ComputedObject_new cls func args varName)
    (fun v => exists oid, v = VComputed oid cls func args varName).
Proof. intros w Hw. split; [assumption|]. intros a [= <-]. eauto. Qed.

Lemma keeps_new_Image R func args varName :
  keeps R (ComputedObject_new "Image" func args varName) is_image.
Proof.
  eapply keeps_weaken; [apply keeps_new|]. intros a [oid ->]. reflexivity.
Qed.

Lemma keeps_initialize R : keeps R initialize (fun _ => True).
Proof.
  intros w Hw. rewrite initialize_run. simpl.
  rewrite initialized_registry. auto.
Qed.

Lemma keeps_mapM {A B} R (f : A -> M B) (Q : B -> Prop) l :
  (forall x, keeps R (f x) Q) ->
  keeps R (mapM f l) (fun ys => Forall Q ys /\ length ys = length l).
Proof.
  intros Hf. induction l as [|x l IH]; simpl.
  - apply keeps_ret. auto.
  - eapply keeps_bind; [apply Hf|]. intros y Hy.
    eapply keeps_bind; [apply IH|]. intros ys [Hys Hlen].
    apply keeps_ret. simpl. auto.
Qed.

Lemma keeps_foldM {A B} R (f : A -> B -> M A) (Q : A -> Prop) l acc :
  (forall a x, Q a -> keeps R (f a x) Q) -> Q acc -> keeps R (foldM f l acc) Q.
Proof.
  intros Hf. revert acc. induction l as [|x l IH]; intros acc Hacc; simpl.
  - apply keeps_ret. assumption.
  - eapply keeps_bind; [apply Hf; assumption|]. intros a Ha. apply IH. assumption.
Qed.

(** Two continuations that agree on what [m] can return, in the states
    it can leave, give the same run. *)
Lemma bind_ext_keeps {A B} R (m : M A) (Q : A -> Prop) (k k' : A -> M B) w :
  keeps R m Q -> registry w = R ->
  (forall a w', Q a -> registry w' = R -> k a w' = k' a w') ->
  bind m k w = bind m k' w.
Proof.
  intros Hm Hw E. unfold bind. destruct (Hm w Hw) as [Hr Ha].
  destruct (m w) as [[a| e |] w']; simpl in *; auto.
Qed.

Lemma Image_new_instance `{Host} fuel x others w :
  instanceof_Image x = true -> Image_new (S fuel) (x :: others) w = (Returns x, w).
Proof.
  intros Hx. simpl. unfold Image_body, argument. simpl. rewrite Hx. reflexivity.
Qed.

Section Images.
Context `{Host}.
Variable R : gmap string Signature.
Variables dst src : string.
Hypothesis addBands_declared : declares R "Image.addBands" dst "Image" src "Image".

Section Step.
Variable Image_ : list value -> M value.
Hypothesis Image_keeps : forall arguments, keeps R (Image_ arguments) is_image.

Lemma addBands_keeps x y :
  keeps R (ApiFunction_call Image_ "Image.addBands" [x; y]) is_image.
Proof.
  eapply keeps_ext.
  { intros w Hw. eapply ApiFunction_call_2. rewrite Hw. exact addBands_declared. }
  eapply keeps_bind; [apply Image_keeps|]. intros x' _.
  eapply keeps_bind; [apply Image_keeps|]. intros y' _.
  eapply keeps_bind; [apply keeps_new|]. intros node _.
  apply Image_keeps.
Qed.

Lemma combine_keeps images :
  keeps R (combine_ Image_ images VUndefined) is_image.
Proof.
  destruct images as [|first others]; simpl; [apply keeps_throw|].
  eapply keeps_bind; [apply Image_keeps|]. intros result Hresult.
  eapply keeps_bind.
  - apply keeps_foldM; [|exact Hresult]. intros a x _. apply addBands_keeps.
  - intros a Ha. apply keeps_ret. assumption.
Qed.

Lemma Image_body_keeps arguments : keeps R (Image_body Image_ arguments) is_image.
Proof.
  unfold Image_body.
  destruct (instanceof_Image (argument 0 arguments)) eqn:Hi.
  { apply keeps_ret. assumption. }
  eapply keeps_bind; [apply keeps_initialize|]. intros _ _.
  destruct (_ || _).
  { eapply keeps_bind; [apply Image_keeps|]. intros image _.
    eapply keeps_bind; [apply Image_keeps|]. intros mask _.
    apply keeps_new_Image. }
  destruct (length arguments =? 1).
  { destruct (isNumber _); [apply keeps_new_Image|].
    destruct (isString _); [apply keeps_new_Image|].
    destruct (argument 0 arguments); try apply keeps_throw.
    - eapply keeps_bind; [apply keeps_mapM; intros; apply Image_keeps|].
      intros images _. apply combine_keeps.
    - destruct (String.eqb cls "Array"); apply keeps_new_Image. }
  destruct (length arguments =? 2); [|apply keeps_throw].
  destruct (_ && _); [apply keeps_new_Image | apply keeps_throw].
Qed.
End Step.

(** With [Image.addBands] declared over images, the constructor never
    touches the registry, and whatever it returns is an ee.Image. *)
Lemma Image_new_keeps fuel arguments : keeps R (Image_new fuel arguments) is_image.
Proof.
  revert arguments. induction fuel as [|fuel IH]; intros arguments; simpl.
  - apply keeps_diverge.
  - apply Image_body_keeps. exact IH.
Qed.
End Images.

(** ** Nodes of calls on images *)

Lemma bind_cong {A B} (m m' : M A) (k : A -> M B) w :
  m w = m' w -> bind m k w = bind m' k w.
Proof. unfold bind. intros ->. reflexivity. Qed.

Lemma initialized_allocated k w :
  initialized (allocated k w) = allocated k (initialized w).
Proof.
  destruct (Image_initialized_ w) eqn:E.
  - rewrite !initialized_on; auto.
  - rewrite !initialized_off by assumption. reflexivity.
Qed.

(** A computed object that is neither an image nor an array keeps its
    function, arguments and variable name under a new identity. *)
Lemma Image_new_reinterpret `{Host} fuel oid cls func args varName w :
  String.eqb cls "Image" = false -> String.eqb cls "Array" = false ->
  Image_new (S fuel) [VComputed oid cls func args varName] w =
    (initialize >> ComputedObject_new "Image" func args varName) w.
Proof.
  intros Hi Ha. simpl. unfold Image_body. simpl. rewrite Hi, Ha. reflexivity.
Qed.

(** The node of a call with two arguments that promotion leaves alone. *)
Lemma ApiFunction_call_2_node `{Host} fuel name n1 t1 n2 t2 x y w :
  declares (registry w) name n1 t1 n2 t2 ->
  promote (Image_new (S fuel)) x t1 w = (Returns x, w) ->
  promote (Image_new (S fuel)) y t2 w = (Returns y, w) ->
  ApiFunction_call (Image_new (S fuel)) name [x; y] w =
    (Returns (VComputed (1 + next_id w) "Image" (Some (ApiFunction name))
                [(n1, x); (n2, y)] None),
     allocated 2 (initialized w)).
Proof.
  intros Hdecl Hx Hy. rewrite (ApiFunction_call_2 _ _ _ _ _ _ _ _ _ Hdecl).
  rewrite (bind_returns _ _ _ _ _ Hx), (bind_returns _ _ _ _ _ Hy).
  unfold bind at 1. unfold ComputedObject_new at 1.
  change (promote (Image_new (S fuel)) ?v "Image") with (Image_new (S fuel) [v]).
  rewrite Image_new_reinterpret by reflexivity. rewrite initialize_then.
  unfold ComputedObject_new. f_equal.
  - rewrite initialized_next_id. reflexivity.
  - change (mkWorld (S (next_id w)) (registry w) (Image_initialized_ w) (Image_members w))
      with (allocated 1 w).
    rewrite initialized_allocated. unfold allocated. simpl. reflexivity.
Qed.

Lemma promote_instance `{Host} fuel x w :
  instanceof_Image x = true ->
  promote (Image_new (S fuel)) x "Image" w = (Returns x, w).
Proof. intros Hx. apply (Image_new_instance fuel x [] w Hx). Qed.

(** ** expression *)

Lemma expression_vars_spec `{Host} Image_ entries vars args w :
  expression_vars Image_ entries vars args w =
    (let* images := mapM (fun entry => Image_ [snd entry]) entries in
     ret (vars ++ map fst entries,
          fold_left (fun acc ni => obj_set (fst ni) (snd ni) acc)
                    (combine (map fst entries) images) args)) w.
Proof.
  revert vars args w. induction entries as [|[name v] entries IH]; intros vars args w.
  - simpl. rewrite bind_ret_l, app_nil_r. reflexivity.
  - simpl. rewrite bind_assoc. apply bind_ext. intros image w1.
    rewrite IH, bind_assoc. apply bind_ext. intros images w2.
    rewrite !bind_ret_l. simpl. rewrite <- app_assoc. reflexivity.
Qed.

Lemma fold_obj_set_fresh names : forall images (args : list (string * value)),
  NoDup (map fst args ++ names) ->
  fold_left (fun acc ni => obj_set (fst ni) (snd ni) acc) (combine names images) args
  = args ++ combine names images.
Proof.
  induction names as [|n names IH]; intros images args Hnd; simpl.
  - rewrite app_nil_r. reflexivity.
  - destruct images as [|i images]; simpl; [rewrite app_nil_r; reflexivity|].
    assert (Hn : n ∉ map fst args).
    { apply NoDup_app in Hnd as (_ & Hdisj & _). intros Hin.
      apply (Hdisj n Hin). left. }
    rewrite obj_set_fresh by assumption.
    rewrite IH.
    + rewrite <- app_assoc. reflexivity.
    + rewrite map_app. simpl. rewrite <- app_assoc. exact Hnd.
Qed.

Lemma map_fst_combine (names : list string) : forall images : list value,
  length images = length names -> map fst (combine names images) = names.
Proof.
  induction names as [|n names IH]; intros [|i images] Hlen; simpl in *;
    try discriminate; [reflexivity|].
  rewrite IH; [reflexivity | congruence].
Qed.

Lemma Forall_snd_combine (names : list string) : forall images : list value,
  Forall is_image images ->
  Forall (fun kv : string * value => is_image (snd kv)) (combine names images).
Proof.
  induction names as [|n names IH]; intros images Himgs; simpl; [constructor|].
  destruct Himgs as [|i images Hi Himgs]; constructor; auto.
Qed.

(** Promotion against the hand-generated signature leaves a mapping of
    images as it is. *)
Lemma promoteArgs_images `{Host} Image_ todo :
  (forall v w, instanceof_Image v = true -> Image_ [v] w = (Returns v, w)) ->
  forall done w,
  NoDup (map fst (done ++ todo)) ->
  Forall (fun kv : string * value => is_image (snd kv)) todo ->
  Function_promoteArgs Image_
    (map (fun name => mkArg name "Image" false) (map fst todo))
    (done ++ todo) done w
  = (Returns (done ++ todo), w).
Proof.
  intros Hid.
  induction todo as [|[k v] todo IH]; intros done w Hnd Himgs.
  - simpl. rewrite app_nil_r. reflexivity.
  - apply Forall_cons in Himgs as [Hv Himgs].
    assert (Hk : k ∉ map fst done).
    { rewrite map_app in Hnd. apply NoDup_app in Hnd as (_ & Hdisj & _).
      intros Hin. apply (Hdisj k Hin). left. }
    simpl Function_promoteArgs.
    rewrite obj_get_app_r by assumption. rewrite obj_get_head.
    unfold promote. simpl String.eqb. cbv iota.
    rewrite (bind_returns _ _ _ _ _ (Hid v w Hv)).
    rewrite obj_set_fresh by assumption.
    replace (done ++ (k, v) :: todo) with ((done ++ [(k, v)]) ++ todo)
      by (rewrite <- app_assoc; reflexivity).
    apply IH; [|assumption].
    rewrite <- app_assoc. exact Hnd.
Qed.

Lemma find_undeclared_none (names : list string) (args : list (string * value)) :
  (forall kv, kv ∈ args -> fst kv ∈ names) ->
  find (fun kv => negb (declared (map (fun name => mkArg name "Image" false) names)
                                 (fst kv))) args = None.
Proof.
  induction args as [|[k v] args IH]; intros Hnames; simpl; [reflexivity|].
  replace (declared _ k) with true.
  - simpl. apply IH. intros kv Hkv. apply Hnames. right. assumption.
  - symmetry. unfold declared. apply existsb_exists.
    exists (mkArg k "Image" false). split.
    + apply (in_map (fun name => mkArg name "Image" false)), list_elem_of_In.
      apply (Hnames (k, v)). left.
    + apply String.eqb_refl.
Qed.

(** C4: [expression(e, m)] on an image constructs [Image(m[name])] for
    each name of [m] in order, builds the call
    [Image.parseExpression(e, argName, [argName] ++ names(m))] with the
    reserved [argName = "DEFAULT_EXPRESSION_IMAGE"], and applies to the
    mapping [{argName: this, name: Image(m[name]), ...}] a function
    whose body is that call and whose signature has [1 + |m|]
    parameters, each of type Image and not optional, and returns Image.
    This is for a map none of whose names is the reserved one:
    [expression] does not look at the names it is given. *)
Theorem expression_builds_parseExpression `{Host} (fuel : nat) (this e : value)
    (m : list (string * value)) (w : World) (dst src : string) :
  instanceof_Image this = true ->
  NoDup (map fst m) ->
  "DEFAULT_EXPRESSION_IMAGE" ∉ map fst m ->
  declares (registry w) "Image.addBands" dst "Image" src "Image" ->
  let argName := "DEFAULT_EXPRESSION_IMAGE" in
  let vars := argName :: map fst m in
  let signature :=
    mkSig "" (map (fun name => mkArg name "Image" false) vars) "Image" in
  expression (Image_new (S fuel)) this e (Some m) w =
    (let* images := mapM (fun entry => Image_new (S fuel) [snd entry]) m in
     let* body :=
       ApiFunction_call (Image_new (S fuel)) "Image.parseExpression"
         [e; VString argName; VArray (map VString vars)] in
     let func := Some (CustomFunction body signature) in
     let args := (argName, this) :: combine (map fst m) images in
     ComputedObject_new "ComputedObject" func args None >>
     (initialize >> ComputedObject_new "Image" func args None)) w /\
  (forall images w1 body w2,
     mapM (fun entry => Image_new (S fuel) [snd entry]) m w = (Returns images, w1) ->
     ApiFunction_call (Image_new (S fuel)) "Image.parseExpression"
       [e; VString argName; VArray (map VString vars)] w1 = (Returns body, w2) ->
     expression (Image_new (S fuel)) this e (Some m) w =
       (Returns (VComputed (1 + next_id w2) "Image"
                   (Some (CustomFunction body signature))
                   ((argName, this) :: combine (map fst m) images) None),
        allocated 2 (initialized w2))) /\
  length (sig_args signature) = 1 + length m /\
  Forall (fun a => arg_type a = "Image" /\ arg_optional a = false)
         (sig_args signature) /\
  sig_returns signature = "Image".
Proof.
  intros Hthis Hnd Hdef Hdecl argName vars signature.
  match goal with |- ?eqn /\ _ => assert (E : eqn) end;
    [|split; [exact E|split; [|split; [|split]]]].
  2:{ intros images w1 body w2 Himages Hbody. rewrite E.
      rewrite (bind_returns _ _ _ _ _ Himages), (bind_returns _ _ _ _ _ Hbody).
      cbv zeta. unfold bind at 1. unfold ComputedObject_new at 1.
      rewrite initialize_then. unfold ComputedObject_new. f_equal.
      - rewrite initialized_next_id. reflexivity.
      - change (mkWorld (S (next_id w2)) (registry w2) (Image_initialized_ w2)
                        (Image_members w2)) with (allocated 1 w2).
        rewrite initialized_allocated. reflexivity. }
  - unfold expression. cbv zeta.
    rewrite (bind_cong _ _ _ _ (expression_vars_spec _ _ _ _ _)).
    rewrite bind_assoc.
    eapply bind_ext_keeps.
    + apply keeps_mapM. intros entry. eapply Image_new_keeps. exact Hdecl.
    + reflexivity.
    + intros images w1 [Himgs Hlen] _. rewrite bind_ret_l. cbn [fst snd].
      rewrite fold_obj_set_fresh by (simpl; constructor; assumption).
      apply bind_ext. intros body w2.
      unfold Function_apply. simpl Function_getSignature. rewrite bind_ret_l.
      cbn [sig_args sig_returns expression_signature].
      set (args := [("DEFAULT_EXPRESSION_IMAGE", this)] ++ combine (map fst m) images).
      assert (Hkeys : map fst args = vars).
      { unfold args. rewrite map_app, map_fst_combine; [reflexivity|].
        rewrite length_map. assumption. }
      change ([("DEFAULT_EXPRESSION_IMAGE"%string)] ++ map fst m) with vars.
      rewrite <- Hkeys.
      rewrite (bind_returns _ _ _ args w2).
      * rewrite find_undeclared_none
          by (intros kv Hkv; change (fst kv ∈ vars); rewrite <- Hkeys;
              apply (list_elem_of_fmap_2 fst); assumption).
        unfold bind at 1. unfold ComputedObject_new at 1.
        change (promote (Image_new (S fuel)) ?v "Image") with (Image_new (S fuel) [v]).
        rewrite Image_new_reinterpret by reflexivity.
        rewrite Hkeys. reflexivity.
      * change ("DEFAULT_EXPRESSION_IMAGE" :: map fst m) with vars.
        rewrite <- Hkeys.
        apply (promoteArgs_images _ args
                 (fun v w' => Image_new_instance fuel v [] w') [] w2).
        -- simpl app. rewrite Hkeys. constructor; assumption.
        -- unfold args. constructor; [exact Hthis|].
           apply Forall_snd_combine. assumption.
  - simpl. rewrite !length_map. reflexivity.
  - simpl. constructor; [split; reflexivity|].
    apply Forall_map, Forall_forall. intros; split; reflexivity.
  - reflexivity.
Qed.

(** ** Enough fuel *)

Lemma settles_ret {A} R (a : A) (Q : A -> Prop) : Q a -> settles R (ret a) Q.
Proof.
  intros Ha w Hw. split; [assumption|]. split; [discriminate|].
  intros b [= <-]. assumption.
Qed.

Lemma settles_throw {A} R e (Q : A -> Prop) : settles R (throw e) Q.
Proof. intros w Hw. split; [assumption|]. split; discriminate. Qed.

Lemma settles_bind {A B} R (m : M A) (k : A -> M B) (Q : A -> Prop) (Q' : B -> Prop) :
  settles R m Q -> (forall a, Q a -> settles R (k a) Q') -> settles R (bind m k) Q'.
Proof.
  intros Hm Hk w Hw. unfold bind. specialize (Hm w Hw).
  destruct (m w) as [[a| e |] w']; simpl in *.
  - destruct Hm as (Hw' & _ & Ha). apply Hk; auto.
  - split; [tauto|]. split; discriminate.
  - tauto.
Qed.

Lemma settles_weaken {A} R (m : M A) (Q Q' : A -> Prop) :
  settles R m Q -> (forall a, Q a -> Q' a) -> settles R m Q'.
Proof. intros Hm HQ w Hw. destruct (Hm w Hw) as (Hr & Hd & Ha). auto. Qed.

Lemma settles_ext {A} R (m m' : M A) (Q : A -> Prop) :
  (forall w, registry w = R -> m w = m' w) -> settles R m' Q -> settles R m Q.
Proof. intros E Hm w Hw. rewrite (E w Hw). apply Hm. assumption. Qed.

Lemma settles_new R cls func args varName :
  settles R (ComputedObject_new cls func args varName)
    (fun v => exists oid, v = VComputed oid cls func args varName).
Proof.
  intros w Hw. split; [assumption|]. split; [discriminate|].
  intros a [= <-]. eauto.
Qed.

Lemma settles_new_Image R func args varName :
  settles R (ComputedObject_new "Image" func args varName) is_image.
Proof.
  eapply settles_weaken; [apply settles_new|]. intros a [oid ->]. reflexivity.
Qed.

Lemma settles_initialize R : settles R initialize (fun _ => True).
Proof.
  intros w Hw. rewrite initialize_run. simpl.
  rewrite initialized_registry. split; [assumption|]. split; [discriminate | auto].
Qed.

Lemma settles_mapM {A B} R (f : A -> M B) (Q : B -> Prop) l :
  Forall (fun x => settles R (f x) Q) l ->
  settles R (mapM f l) (Forall Q).
Proof.
  induction 1 as [|x l Hx Hl IH]; simpl.
  - apply settles_ret. constructor.
  - eapply settles_bind; [exact Hx|]. intros y Hy.
    eapply settles_bind; [exact IH|]. intros ys Hys.
    apply settles_ret. constructor; assumption.
Qed.

Lemma settles_foldM {A B} R (f : A -> B -> M A) (Q : A -> Prop) (P : B -> Prop) l :
  (forall a x, Q a -> P x -> settles R (f a x) Q) ->
  Forall P l -> forall acc, Q acc -> settles R (foldM f l acc) Q.
Proof.
  intros Hf. induction 1 as [|x l Hx Hl IH]; intros acc Hacc; simpl.
  - apply settles_ret. assumption.
  - eapply settles_bind; [apply Hf; assumption|]. intros a Ha. apply IH. assumption.
Qed.

Lemma cost_image v : is_image v -> cost v = 1.
Proof. destruct v; try discriminate. reflexivity. Qed.

Section Fuel.
Context `{Host}.
Variable R : gmap string Signature.
Variables dst src : string.
Hypothesis addBands_declared : declares R "Image.addBands" dst "Image" src "Image".

Section Step.
Variable Image_ : list value -> M value.
Variable fuel : nat.
Hypothesis Image_settles :
  forall v, cost v <= fuel -> settles R (Image_ [v]) is_image.

Lemma addBands_settles x y :
  1 <= fuel -> is_image x -> is_image y ->
  settles R (ApiFunction_call Image_ "Image.addBands" [x; y]) is_image.
Proof.
  intros Hfuel Hx Hy. eapply settles_ext.
  { intros w Hw. eapply ApiFunction_call_2. rewrite Hw. exact addBands_declared. }
  eapply settles_bind.
  { apply Image_settles. rewrite cost_image; assumption. }
  intros x' _. eapply settles_bind.
  { apply Image_settles. rewrite cost_image; assumption. }
  intros y' _. eapply settles_bind; [apply settles_new|].
  intros node [oid ->]. apply Image_settles. assumption.
Qed.

Lemma combine_settles images :
  1 <= fuel -> Forall is_image images ->
  settles R (combine_ Image_ images VUndefined) is_image.
Proof.
  intros Hfuel Himages.
  destruct Himages as [|first others Hfirst Hothers]; simpl; [apply settles_throw|].
  eapply settles_bind.
  { apply Image_settles. rewrite cost_image; assumption. }
  intros result Hresult. eapply settles_bind.
  - eapply settles_foldM; [|exact Hothers|exact Hresult].
    intros a x Ha Hx. apply addBands_settles; assumption.
  - intros a Ha. apply settles_ret. assumption.
Qed.

Lemma Image_body_settles v :
  cost v <= S fuel -> settles R (Image_body Image_ [v]) is_image.
Proof.
  intros Hcost. unfold Image_body. change (argument 0 [v]) with v.
  destruct (instanceof_Image v) eqn:Hi.
  { apply settles_ret. assumption. }
  eapply settles_bind; [apply settles_initialize|]. intros _ _.
  destruct v; simpl in *; try discriminate Hi;
    try apply settles_new_Image; try apply settles_throw.
  - eapply settles_bind; [apply Image_settles; simpl; lia|]. intros image _.
    eapply settles_bind; [apply Image_settles; simpl; lia|]. intros mask _.
    apply settles_new_Image.
  - eapply settles_bind.
    + apply settles_mapM, Forall_forall. intros elem Helem.
      apply Image_settles.
      assert (Hmax : list_max (map cost elems) <= fuel) by lia.
      apply list_max_le in Hmax.
      apply (proj1 (Forall_forall _ _) Hmax), list_elem_of_In.
      apply in_map, list_elem_of_In. assumption.
    + intros images Himages. apply combine_settles; [lia | assumption].
  - destruct (String.eqb cls "Array"); apply settles_new_Image.
Qed.
End Step.

(** With [Image.addBands] declared over images and fuel for the
    nesting of its argument, the constructor returns an ee.Image or
    throws. *)
Lemma Image_new_settles fuel : forall v,
  cost v <= fuel -> settles R (Image_new fuel [v]) is_image.
Proof.
  induction fuel as [|fuel IH]; intros v Hcost.
  - destruct v; simpl in Hcost; lia.
  - apply (Image_body_settles (Image_new fuel) fuel IH). assumption.
Qed.
End Fuel.

(** ** The constructor on a list *)

(** The loop of [combine_] over images builds the nested graph. *)
Lemma foldM_addBands_graph `{Host} (fuel : nat) (dst src : string) (others : list value) :
  forall (first : value) (w : World),
  declares (registry w) "Image.addBands" dst "Image" src "Image" ->
  instanceof_Image first = true ->
  Forall is_image others ->
  fst (foldM (addBands (S fuel)) others first w) =
    Returns (left_fold_addBands dst src (next_id w) first others) /\
  next_id (snd (foldM (addBands (S fuel)) others first w)) =
    2 * length others + next_id w /\
  registry (snd (foldM (addBands (S fuel)) others first w)) = registry w.
Proof.
  induction others as [|image others IH]; intros first w Hdecl Hfirst Himages.
  - simpl. auto.
  - inversion Himages as [|? ? Himage Hothers]; subst.
    assert (Hstep : addBands (S fuel) first image w =
      (Returns (VComputed (1 + next_id w) "Image" (Some (ApiFunction "Image.addBands"))
                  [(dst, first); (src, image)] None),
       allocated 2 (initialized w))).
    { unfold addBands.
      apply ApiFunction_call_2_node with (t1 := "Image") (t2 := "Image");
        [exact Hdecl | apply promote_instance; assumption
         | apply promote_instance; exact Himage]. }
    change (foldM (addBands (S fuel)) (image :: others) first w) with
      (bind (addBands (S fuel) first image) (foldM (addBands (S fuel)) others) w).
    rewrite (bind_returns _ _ _ _ _ Hstep).
    assert (Hid : next_id (allocated 2 (initialized w)) = 2 + next_id w)
      by (simpl; rewrite initialized_next_id; reflexivity).
    assert (Hreg : registry (allocated 2 (initialized w)) = registry w)
      by (simpl; apply initialized_registry).
    destruct (IH (VComputed (1 + next_id w) "Image" (Some (ApiFunction "Image.addBands"))
                    [(dst, first); (src, image)] None)
                 (allocated 2 (initialized w))) as (Hv & Hn & Hr);
      [rewrite Hreg; exact Hdecl | reflexivity | exact Hothers |].
    rewrite Hv, Hn, Hr, Hid, Hreg. simpl length.
    split; [reflexivity | split; [lia | reflexivity]].
Qed.

(** C3: for a non-empty list, [Image([a1, ..., an])] constructs
    [Image(a1)], ..., [Image(an)] in order and is [combine_] of these
    images with no list of new names; and that is the left-to-right fold
    of [addBands] from [Image(a1)] over [Image(a2)], ..., [Image(an)]:
    when the images are constructed, the constructor returns the graph
    [addBands(... addBands(Image(a1), Image(a2)) ..., Image(an))], whose
    every node is the [Image.addBands] call over the graph so far and
    the next image, in the order of the list, and it builds two objects
    for each call.  Fuel for the nesting of the list suffices. *)
Theorem Image_of_list_folds_addBands `{Host} (fuel : nat) (a : value)
    (l : list value) (w : World) (dst src : string) :
  declares (registry w) "Image.addBands" dst "Image" src "Image" ->
  Image_new (S (S fuel)) [VArray (a :: l)] w =
    (initialize >>
     (let* images := mapM (fun elem => Image_new (S fuel) [elem]) (a :: l) in
      combine_ (Image_new (S fuel)) images VUndefined)) w /\
  Image_new (S (S fuel)) [VArray (a :: l)] w =
    (initialize >>
     (let* first := Image_new (S fuel) [a] in
      let* others := mapM (fun elem => Image_new (S fuel) [elem]) l in
      foldM (addBands (S fuel)) others first)) w /\
  (forall first others w1,
     mapM (fun elem => Image_new (S fuel) [elem]) (a :: l) (initialized w) =
       (Returns (first :: others), w1) ->
     fst (Image_new (S (S fuel)) [VArray (a :: l)] w) =
       Returns (left_fold_addBands dst src (next_id w1) first others) /\
     next_id (snd (Image_new (S (S fuel)) [VArray (a :: l)] w)) =
       2 * length others + next_id w1 /\
     registry (snd (Image_new (S (S fuel)) [VArray (a :: l)] w)) = registry w /\
     length others = length l) /\
  (forall result image w',
     instanceof_Image result = true -> instanceof_Image image = true ->
     registry w' = registry w ->
     addBands (S fuel) result image w' =
       (Returns (VComputed (1 + next_id w') "Image" (Some (ApiFunction "Image.addBands"))
                   [(dst, result); (src, image)] None),
        allocated 2 (initialized w'))) /\
  (cost (VArray (a :: l)) <= S (S fuel) ->
   fst (Image_new (S (S fuel)) [VArray (a :: l)] w) <> Diverges).
Proof.
  intros Hdecl.
  assert (Hnode : forall result image w',
     instanceof_Image result = true -> instanceof_Image image = true ->
     registry w' = registry w ->
     addBands (S fuel) result image w' =
       (Returns (VComputed (1 + next_id w') "Image" (Some (ApiFunction "Image.addBands"))
                   [(dst, result); (src, image)] None),
        allocated 2 (initialized w'))).
  { intros result image w' Hr Hi Hw'. unfold addBands.
    apply ApiFunction_call_2_node with (t1 := "Image") (t2 := "Image").
    - rewrite Hw'. exact Hdecl.
    - apply promote_instance. assumption.
    - apply promote_instance. assumption. }
  assert (E : Image_new (S (S fuel)) [VArray (a :: l)] w =
    (initialize >>
     (let* images := mapM (fun elem => Image_new (S fuel) [elem]) (a :: l) in
      combine_ (Image_new (S fuel)) images VUndefined)) w) by reflexivity.
  split; [exact E|]. split; [|split; [|split; [exact Hnode|]]].
  3:{ intros Hcost.
      apply (Image_new_settles (registry w) dst src Hdecl _ _ Hcost w eq_refl). }
  2:{ intros first others w1 Hmap.
      destruct (keeps_mapM (registry w) (fun elem => Image_new (S fuel) [elem]) is_image
                  (a :: l)
                  (fun elem => Image_new_keeps (registry w) dst src Hdecl (S fuel) [elem])
                  (initialized w) (initialized_registry w)) as [Hreg Himages].
      rewrite Hmap in Hreg, Himages. simpl in Hreg.
      destruct (Himages _ eq_refl) as [Hall Hlen].
      inversion Hall as [|? ? Hfirst Hothers]; subst.
      rewrite E, initialize_then, (bind_returns _ _ _ _ _ Hmap).
      unfold combine_.
      rewrite (bind_returns _ _ _ _ _ (Image_new_instance fuel first [] w1 Hfirst)).
      simpl truthy. cbv iota. rewrite bind_ret_r.
      destruct (foldM_addBands_graph fuel dst src others first w1) as (Hv & Hn & Hr);
        [rewrite Hreg; exact Hdecl | exact Hfirst | exact Hothers |].
      change (foldM (fun result image =>
                       ApiFunction_call (Image_new (S fuel)) "Image.addBands" [result; image])
                    others first w1)
        with (foldM (addBands (S fuel)) others first w1).
      rewrite Hv, Hn, Hr, Hreg. simpl in Hlen. repeat split; congruence. }
  rewrite E, !initialize_then.
  simpl mapM. rewrite bind_assoc.
  eapply bind_ext_keeps.
  - eapply Image_new_keeps. exact Hdecl.
  - apply initialized_registry.
  - intros first w1 Hfirst _. rewrite bind_assoc. apply bind_ext.
    intros others w2. rewrite bind_ret_l. unfold combine_.
    rewrite (bind_returns _ _ _ _ _ (Image_new_instance fuel first [] w2 Hfirst)).
    simpl truthy. cbv iota. apply bind_ret_r.
Qed.

(** ** clip *)

(** C7: [clip(g)] does not fail on the coercion of [g]: the geometry
    type is tried, and when it throws the original [g] goes into the
    call; either way the call [Image.clip] over the receiver and that
    value is built and returned.  The registry declares [Image.clip]
    over an image and a second parameter whose declared type promotion
    leaves alone ("the signature does not specify the type so auto
    promotion won't work", says the source). *)
Theorem clip_never_raises `{Host} (fuel : nat) (this g : value) (w : World)
    (input region type : string) :
  let attempt := Geometry_new [g] w in
  let geometry := match fst attempt with Normal geo => geo | Thrown _ => g end in
  let w1 := snd attempt in
  instanceof_Image this = true ->
  declares (registry w1) "Image.clip" input "Image" region type ->
  String.eqb type "Image" = false ->
  promote_other geometry type w1 = (Normal geometry, w1) ->
  clip (Image_new (S fuel)) this g w =
    ApiFunction_call (Image_new (S fuel)) "Image.clip" [this; geometry] w1 /\
  clip (Image_new (S fuel)) this g w =
    (Returns (VComputed (1 + next_id w1) "Image" (Some (ApiFunction "Image.clip"))
                [(input, this); (region, geometry)] None),
     allocated 2 (initialized w1)).
Proof.
  intros attempt geometry w1 Hthis Hdecl Htype Hpass.
  assert (E : clip (Image_new (S fuel)) this g w =
    ApiFunction_call (Image_new (S fuel)) "Image.clip" [this; geometry] w1).
  { unfold clip, bind at 1, try_or, lift. subst geometry w1 attempt.
    destruct (Geometry_new [g] w) as [[geo|err] w']; reflexivity. }
  split; [exact E|]. rewrite E.
  apply ApiFunction_call_2_node with (t1 := "Image") (t2 := type).
  - exact Hdecl.
  - apply promote_instance. assumption.
  - unfold promote, lift. rewrite Htype, Hpass. reflexivity.
Qed.

(* ================================================================== *)
(** * The properties on the sample registry *)

Lemma sample_declares_addBands :
  declares (registry sample_world) "Image.addBands" "dstImg" "Image" "srcImg" "Image".
Proof.
  exists (mkSig "Image.addBands"
            [mkArg "dstImg" "Image" false; mkArg "srcImg" "Image" false;
             mkArg "names" "List" true; mkArg "overwrite" "Boolean" true] "Image"),
         false, false,
         [mkArg "names" "List" true; mkArg "overwrite" "Boolean" true].
  split; [reflexivity|]. split; [reflexivity|]. split; [|split; [|reflexivity]].
  - simpl map. apply (bool_decide_unpack (NoDup _)). vm_compute. exact I.
  - repeat constructor.
Qed.

Lemma sample_declares_clip (w : World) :
  registry w = sample_registry ->
  declares (registry w) "Image.clip" "input" "Image" "geometry" "Object".
Proof.
  intros ->.
  exists (mkSig "Image.clip"
            [mkArg "input" "Image" false; mkArg "geometry" "Object" true] "Image"),
         false, true, [].
  split; [reflexivity|]. split; [reflexivity|]. split; [|split; [|reflexivity]].
  - simpl map. apply (bool_decide_unpack (NoDup _)). vm_compute. exact I.
  - constructor.
Qed.

Lemma Image_of_Image_is_identity_witness :
  instanceof_Image (constant_image 7 5) = true /\
  @Image_new sample_host 1 [constant_image 7 5] sample_world
    = (Returns (constant_image 7 5), sample_world) /\
  @Image sample_host 1 [constant_image 7 5] sample_world
    = (Returns (constant_image 7 5), sample_world).
Proof.
  split; [reflexivity|].
  exact (@Image_of_Image_is_identity sample_host 0 (constant_image 7 5) []
           sample_world eq_refl).
Defined.

Lemma select_spread_witness :
  forallb (fun s => isString s || isNumber s) [VString "B1"; VString "B2"] = true /\
  @select sample_host (@Image_new sample_host 1) (constant_image 0 1)
      [VString "B1"; VString "B2"] sample_world
  = @select sample_host (@Image_new sample_host 1) (constant_image 0 1)
      [VArray [VString "B1"; VString "B2"]] sample_world.
Proof.
  split; [reflexivity|].
  exact (proj1 (@select_spread sample_host (@Image_new sample_host 1)
                  (constant_image 0 1) [VString "B1"; VString "B2"]
                  sample_world eq_refl)).
Defined.

Lemma select_checks_spread_only_witness :
  isString (VNumber 1) || isNumber (VNumber 1) = true /\
  find illegal_selector [VNumber 1; VObject []] = Some (VObject []) /\
  @select sample_host (@Image_new sample_host 1) (constant_image 0 1)
      [VNumber 1; VObject []] sample_world
  = (Throws (Error [Txt "Illegal argument to select(): "; Val (VObject [])]),
     sample_world).
Proof.
  split; [reflexivity|]. split; [reflexivity|].
  exact (proj1 (@select_checks_spread_only sample_host (@Image_new sample_host 1)
                  (constant_image 0 1) (VNumber 1) [VObject []] []
                  (VObject []) sample_world eq_refl eq_refl)).
Defined.

(** C6 fails as stated on [select([1, {}])]: the list holds a plain
    object, which is neither a string, a number nor a computed object,
    and the call returns the [Image.select] node with the list as its
    [bandSelectors]; nothing is thrown. *)
Lemma select_list_is_not_checked :
  illegal_selector (VObject []) = true /\
  @select sample_host (@Image_new sample_host 1) (constant_image 0 1)
      [VArray [VNumber 1; VObject []]] (mkWorld 1 sample_registry true ∅)
  = (Returns (VComputed 2 "Image" (Some (ApiFunction "Image.select"))
                [("input", constant_image 0 1);
                 ("bandSelectors", VArray [VNumber 1; VObject []])] None),
     mkWorld 3 sample_registry true ∅).
Proof. split; [reflexivity | vm_compute; reflexivity]. Qed.

Lemma Image_of_list_folds_addBands_witness :
  declares (registry sample_world) "Image.addBands" "dstImg" "Image" "srcImg" "Image" /\
  mapM (fun elem => @Image_new sample_host 1 [elem]) [VNumber 1; VString "a"; VNumber 3]
       (initialized sample_world) =
    (Returns [constant_image 0 1;
              VComputed 1 "Image" (Some (ApiFunction "Image.load")) [("id", VString "a")] None;
              constant_image 2 3],
     allocated 3 (initialized sample_world)) /\
  fst (@Image_new sample_host 2 [VArray [VNumber 1; VString "a"; VNumber 3]] sample_world) =
    Returns
      (VComputed 6 "Image" (Some (ApiFunction "Image.addBands"))
         [("dstImg",
           VComputed 4 "Image" (Some (ApiFunction "Image.addBands"))
             [("dstImg", constant_image 0 1);
              ("srcImg", VComputed 1 "Image" (Some (ApiFunction "Image.load"))
                           [("id", VString "a")] None)] None);
          ("srcImg", constant_image 2 3)] None) /\
  next_id (snd (@Image_new sample_host 2 [VArray [VNumber 1; VString "a"; VNumber 3]]
                  sample_world)) = 7 /\
  @Image_new sample_host 2 [VArray [VNumber 1; VString "a"; VNumber 3]] sample_world =
    (initialize >>
     (let* first := @Image_new sample_host 1 [VNumber 1] in
      let* others := mapM (fun elem => @Image_new sample_host 1 [elem])
                          [VString "a"; VNumber 3] in
      foldM (@addBands sample_host 1) others first)) sample_world.
Proof.
  pose proof (@Image_of_list_folds_addBands sample_host 0 (VNumber 1)
                [VString "a"; VNumber 3] sample_world "dstImg" "srcImg"
                sample_declares_addBands) as T.
  assert (Hmap :
    mapM (fun elem => @Image_new sample_host 1 [elem]) [VNumber 1; VString "a"; VNumber 3]
         (initialized sample_world) =
      (Returns [constant_image 0 1;
                VComputed 1 "Image" (Some (ApiFunction "Image.load"))
                  [("id", VString "a")] None;
                constant_image 2 3],
       allocated 3 (initialized sample_world))) by (vm_compute; reflexivity).
  split; [exact sample_declares_addBands|]. split; [exact Hmap|].
  destruct (proj1 (proj2 (proj2 T)) _ _ _ Hmap) as (Hgraph & Hid & _).
  split; [exact Hgraph|]. split; [exact Hid|].
  exact (proj1 (proj2 T)).
Defined.

(** The graph of [Image([1, "a", 3])]: [addBands(addBands(constant(1),
    load("a")), constant(3))]. *)
Example Image_of_three :
  fst (@Image_new sample_host 2 [VArray [VNumber 1; VString "a"; VNumber 3]] sample_world)
  = Returns
      (VComputed 6 "Image" (Some (ApiFunction "Image.addBands"))
         [("dstImg",
           VComputed 4 "Image" (Some (ApiFunction "Image.addBands"))
             [("dstImg", constant_image 0 1);
              ("srcImg", VComputed 1 "Image" (Some (ApiFunction "Image.load"))
                           [("id", VString "a")] None)] None);
          ("srcImg", constant_image 2 3)] None).
Proof. vm_compute. reflexivity. Qed.

Lemma expression_builds_parseExpression_witness :
  instanceof_Image (constant_image 0 1) = true /\
  NoDup (map fst [("b2", VNumber 2)]) /\
  ("DEFAULT_EXPRESSION_IMAGE" ∉ map fst [("b2", VNumber 2)]) /\
  length (sig_args (mkSig "" (map (fun name => mkArg name "Image" false)
                                  ("DEFAULT_EXPRESSION_IMAGE" :: map fst [("b2", VNumber 2)]))
                          "Image")) = 2 /\
  @expression sample_host (@Image_new sample_host 1) (constant_image 0 1)
      (VString "b1+b2") (Some [("b2", VNumber 2)]) (mkWorld 1 sample_registry true ∅) =
    (let* images := mapM (fun entry => @Image_new sample_host 1 [snd entry])
                         [("b2", VNumber 2)] in
     let* body :=
       @ApiFunction_call sample_host (@Image_new sample_host 1) "Image.parseExpression"
         [VString "b1+b2"; VString "DEFAULT_EXPRESSION_IMAGE";
          VArray (map VString ("DEFAULT_EXPRESSION_IMAGE" :: map fst [("b2", VNumber 2)]))] in
     let func :=
       Some (CustomFunction body
               (mkSig "" (map (fun name => mkArg name "Image" false)
                              ("DEFAULT_EXPRESSION_IMAGE" :: map fst [("b2", VNumber 2)]))
                      "Image")) in
     let args := ("DEFAULT_EXPRESSION_IMAGE", constant_image 0 1)
                 :: combine (map fst [("b2", VNumber 2)]) images in
     ComputedObject_new "ComputedObject" func args None >>
     (initialize >> ComputedObject_new "Image" func args None))
    (mkWorld 1 sample_registry true ∅).
Proof.
  assert (Hnd : NoDup (map fst [("b2", VNumber 2)])) by (repeat constructor; inversion 1).
  assert (Hdef : "DEFAULT_EXPRESSION_IMAGE" ∉ map fst [("b2", VNumber 2)]).
  { apply not_elem_of_cons. split; [discriminate | apply not_elem_of_nil]. }
  pose proof (@expression_builds_parseExpression sample_host 0 (constant_image 0 1)
                (VString "b1+b2") [("b2", VNumber 2)] (mkWorld 1 sample_registry true ∅)
                "dstImg" "srcImg" eq_refl Hnd Hdef sample_declares_addBands) as T.
  split; [reflexivity|]. split; [exact Hnd|]. split; [exact Hdef|].
  split; [exact (proj1 (proj2 (proj2 T))) | exact (proj1 T)].
Defined.

(** The graph of [expression("b1+b2", {b2: 2})] on an image. *)
Example expression_of_b1_b2 :
  fst (@expression sample_host (@Image_new sample_host 1) (constant_image 0 1)
         (VString "b1+b2") (Some [("b2", VNumber 2)]) (mkWorld 1 sample_registry true ∅))
  = Returns
      (VComputed 4 "Image"
         (Some (CustomFunction
                  (VComputed 2 "ComputedObject" (Some (ApiFunction "Image.parseExpression"))
                     [("expression", VString "b1+b2");
                      ("argName", VString "DEFAULT_EXPRESSION_IMAGE");
                      ("vars", VArray [VString "DEFAULT_EXPRESSION_IMAGE"; VString "b2"])]
                     None)
                  (mkSig "" [mkArg "DEFAULT_EXPRESSION_IMAGE" "Image" false;
                             mkArg "b2" "Image" false] "Image")))
         [("DEFAULT_EXPRESSION_IMAGE", constant_image 0 1);
          ("b2", constant_image 1 2)] None).
Proof. vm_compute. reflexivity. Qed.

Lemma clip_never_raises_witness :
  instanceof_Image (constant_image 0 1) = true /\
  @clip sample_host (@Image_new sample_host 1) (constant_image 0 1) (VBool true)
      (mkWorld 1 sample_registry true ∅)
  = (Returns (VComputed 2 "Image" (Some (ApiFunction "Image.clip"))
                [("input", constant_image 0 1); ("geometry", VBool true)] None),
     allocated 2 (initialized (mkWorld 1 sample_registry true ∅))).
Proof.
  split; [reflexivity|].
  exact (proj2 (@clip_never_raises sample_host 0 (constant_image 0 1) (VBool true)
                  (mkWorld 1 sample_registry true ∅) "input" "geometry" "Object"
                  eq_refl
                  (sample_declares_clip (mkWorld 1 sample_registry true ∅) eq_refl)
                  eq_refl eq_refl)).
Defined.

(** [clip] on GeoJSON embeds the coerced geometry. *)
Example clip_of_GeoJSON :
  fst (@clip sample_host (@Image_new sample_host 1) (constant_image 0 1)
         (VObject [("type", VString "Point")]) (mkWorld 1 sample_registry true ∅))
  = Returns
      (VComputed 3 "Image" (Some (ApiFunction "Image.clip"))
         [("input", constant_image 0 1);
          ("geometry", VComputed 1 "Geometry" None [("type", VString "Point")] None)]
         None).
Proof. vm_compute. reflexivity. Qed.

(** [rgb] combines and renames. *)
Example rgb_of_three :
  fst (@rgb sample_host (@Image_new sample_host 2) (VNumber 1) (VNumber 2) (VNumber 3)
         sample_world)
  = Returns
      (VComputed 8 "Image" (Some (ApiFunction "Image.select"))
         [("input",
           VComputed 6 "Image" (Some (ApiFunction "Image.addBands"))
             [("dstImg",
               VComputed 3 "Image" (Some (ApiFunction "Image.addBands"))
                 [("dstImg", constant_image 0 1); ("srcImg", constant_image 1 2)] None);
              ("srcImg", constant_image 4 3)] None);
          ("bandSelectors", VArray [VString ".*"]);
          ("newNames", VArray [VString "vis-red"; VString "vis-green"; VString "vis-blue"])]
         None).
Proof. vm_compute. reflexivity. Qed.

(** The members the sample registry binds. *)
Example sample_members :
  elements (Image_members (initialized sample_world))
  = ["select"; "clip"; "addBands"; "focal_max"; "parseExpression"].
Proof. vm_compute. reflexivity. Qed.

(** When the map of [expression] itself uses the reserved name, that
    entry takes the receiver's place in the mapping. *)
Example expression_reserved_name_reused :
  fst (@expression sample_host (@Image_new sample_host 1) (constant_image 0 1)
         (VString "b1") (Some [("DEFAULT_EXPRESSION_IMAGE", VNumber 2)])
         (mkWorld 1 sample_registry true ∅))
  = Returns
      (VComputed 4 "Image"
         (Some (CustomFunction
                  (VComputed 2 "ComputedObject" (Some (ApiFunction "Image.parseExpression"))
                     [("expression", VString "b1");
                      ("argName", VString "DEFAULT_EXPRESSION_IMAGE");
                      ("vars", VArray [VString "DEFAULT_EXPRESSION_IMAGE";
                                       VString "DEFAULT_EXPRESSION_IMAGE"])]
                     None)
                  (mkSig "" [mkArg "DEFAULT_EXPRESSION_IMAGE" "Image" false;
                             mkArg "DEFAULT_EXPRESSION_IMAGE" "Image" false] "Image")))
         [("DEFAULT_EXPRESSION_IMAGE", constant_image 1 2)] None).
Proof. vm_compute. reflexivity. Qed.

(** C4, as stated for every map, fails on a map that uses the reserved
    name: [expression("b1", {DEFAULT_EXPRESSION_IMAGE: 2})] returns a
    node whose mapping binds the reserved name to [Image(2)], the
    receiver is bound nowhere in it, and the function declares the
    reserved name twice. *)
Lemma expression_reserved_name_unbinds_receiver :
  exists body args,
    fst (@expression sample_host (@Image_new sample_host 1) (constant_image 0 1)
           (VString "b1") (Some [("DEFAULT_EXPRESSION_IMAGE", VNumber 2)])
           (mkWorld 1 sample_registry true ∅))
    = Returns
        (VComputed 4 "Image"
           (Some (CustomFunction body
                    (mkSig "" [mkArg "DEFAULT_EXPRESSION_IMAGE" "Image" false;
                               mkArg "DEFAULT_EXPRESSION_IMAGE" "Image" false] "Image")))
           args None) /\
    obj_get "DEFAULT_EXPRESSION_IMAGE" args = Some (constant_image 1 2) /\
    obj_get "DEFAULT_EXPRESSION_IMAGE" args <> Some (constant_image 0 1) /\
    constant_image 0 1 ∉ map snd args.
Proof.
  eexists _, _. split; [vm_compute; reflexivity|].
  split; [reflexivity|]. split; [discriminate|].
  intros Hin. apply list_elem_of_singleton in Hin. discriminate Hin.
Qed.

(* ================================================================== *)
(** * Further properties of the constructor *)

Lemma mapM_throws {A B} (f : A -> M B) l1 x l2 w ys w1 e w2 :
  mapM f l1 w = (Returns ys, w1) ->
  f x w1 = (Throws e, w2) ->
  mapM f (l1 ++ x :: l2) w = (Throws e, w2).
Proof.
  revert w ys. induction l1 as [|a l1 IH]; intros w ys Hl1 Hx; simpl in *.
  - injection Hl1 as <- <-. unfold bind. rewrite Hx. reflexivity.
  - unfold bind in *. destruct (f a w) as [[y| e' |] w'] eqn:Ea; try discriminate.
    destruct (mapM f l1 w') as [[ys'| e' |] w''] eqn:El; try discriminate.
    injection Hl1 as <- <-.
    rewrite (IH w' ys' El Hx). reflexivity.
Qed.

Lemma bind_throws {A B} (m : M A) (k : A -> M B) w e w' :
  m w = (Throws e, w') -> bind m k w = (Throws e, w').
Proof. unfold bind. intros ->. reflexivity. Qed.

Lemma Image_new_unrecognized `{Host} fuel v w :
  unrecognized v = true ->
  Image_new (S fuel) [v] w =
    (Throws (Error [Txt "Unrecognized argument type to convert to an Image: "; Val v]),
     initialized w).
Proof.
  intros Hv. simpl. unfold Image_body.
  destruct v; try discriminate Hv; simpl; rewrite initialize_then; reflexivity.
Qed.

(** X1: a single argument that is [null], a boolean or a plain object is
    rejected: the constructor, with [new] or as a function, throws
    "Unrecognized argument type to convert to an Image: " with the
    argument, after initializing the class and without building
    anything. *)
Theorem Image_rejects_unrecognized `{Host} (fuel : nat) (v : value) (w : World) :
  unrecognized v = true ->
  Image_new (S fuel) [v] w =
    (Throws (Error [Txt "Unrecognized argument type to convert to an Image: "; Val v]),
     initialized w) /\
  Image (S fuel) [v] w = Image_new (S fuel) [v] w /\
  next_id (initialized w) = next_id w.
Proof.
  intros Hv. split; [apply Image_new_unrecognized; assumption|].
  split; [reflexivity | apply initialized_next_id].
Qed.

(** X2: two arguments are accepted only as a string and a number: when
    the first is not an image and the pair is anything else, the
    constructor throws "Unrecognized argument types to convert to an
    Image: " with the arguments. *)
Theorem Image_rejects_two_arguments `{Host} (fuel : nat) (a b : value) (w : World) :
  instanceof_Image a = false ->
  isString a && isNumber b = false ->
  Image_new (S fuel) [a; b] w =
    (Throws (Error [Txt "Unrecognized argument types to convert to an Image: ";
                    Args [a; b]]),
     initialized w).
Proof.
  intros Ha Hab. simpl. unfold Image_body.
  change (argument 0 [a; b]) with a. change (argument 1 [a; b]) with b.
  rewrite Ha, initialize_then. simpl. rewrite Hab. reflexivity.
Qed.

(** X3: more than two arguments, the first of which is not an image, are
    rejected with the count: "The Image constructor takes at most 2
    arguments (n given)". *)
Theorem Image_rejects_more_arguments `{Host} (fuel : nat) (arguments : list value)
    (w : World) :
  instanceof_Image (argument 0 arguments) = false ->
  2 < length arguments ->
  Image_new (S fuel) arguments w =
    (Throws (Error [Txt "The Image constructor takes at most 2 arguments (";
                    Count (length arguments); Txt " given)"]),
     initialized w).
Proof.
  intros Ha Hlen. simpl. unfold Image_body. rewrite Ha, initialize_then.
  destruct arguments as [|x [|y [|z rest]]]; simpl in Hlen; try lia.
  reflexivity.
Qed.

(** X4: a computed object that is not an image is made one: an object
    named "Array" becomes the value of a constant image, any other
    object gives an image with the same function, arguments and
    variable name, under a new identity. *)
Theorem Image_of_computed `{Host} (fuel : nat) (oid : nat) (cls : string)
    (func : option Func) (args : list (string * value)) (varName : option string)
    (w : World) :
  String.eqb cls "Image" = false ->
  Image_new (S fuel) [VComputed oid cls func args varName] w =
    (Returns
       (if String.eqb cls "Array" then
          VComputed (next_id w) "Image" (Some (ApiFunction "Image.constant"))
            [("value", VComputed oid cls func args varName)] None
        else VComputed (next_id w) "Image" func args varName),
     allocated 1 (initialized w)).
Proof.
  intros Hcls. simpl. unfold Image_body. simpl. rewrite Hcls, initialize_then.
  unfold ComputedObject_new, allocated, argument. simpl nth.
  destruct (String.eqb cls "Array"); rewrite <- !(initialized_next_id w); reflexivity.
Qed.

(** X5: with [Image.addBands] declared over images and fuel for the
    nesting of the argument, the constructor ends, by returning or by
    throwing; what it returns is an ee.Image; and it leaves the
    registry as it was. *)
Theorem Image_returns_images `{Host} (fuel : nat) (v : value) (w : World)
    (dst src : string) :
  declares (registry w) "Image.addBands" dst "Image" src "Image" ->
  cost v <= fuel ->
  fst (Image_new fuel [v] w) <> Diverges /\
  (forall x, fst (Image_new fuel [v] w) = Returns x -> instanceof_Image x = true) /\
  registry (snd (Image_new fuel [v] w)) = registry w.
Proof.
  intros Hdecl Hcost.
  destruct (Image_new_settles (registry w) dst src Hdecl fuel v Hcost w eq_refl)
    as (Hreg & Hdiv & Himg).
  auto.
Qed.

(** X6: constructing an image from what the constructor returned changes
    nothing: [Image(Image(...))] runs as [Image(...)], with the same
    result and the same state. *)
Theorem Image_of_constructed `{Host} (fuel : nat) (arguments : list value)
    (w : World) (dst src : string) :
  declares (registry w) "Image.addBands" dst "Image" src "Image" ->
  (let* image := Image_new (S fuel) arguments in Image_new (S fuel) [image]) w =
  Image_new (S fuel) arguments w.
Proof.
  intros Hdecl. rewrite <- (bind_ret_r (Image_new (S fuel) arguments) w).
  eapply bind_ext_keeps.
  - eapply Image_new_keeps. exact Hdecl.
  - reflexivity.
  - intros image w' Himage _. apply Image_new_instance. assumption.
Qed.

(** X7: the constructor initializes the class itself: on arguments whose
    first is not an image it runs the same from a state and from that
    state with [initialize] already done. *)
Theorem Image_initializes_itself `{Host} (fuel : nat) (arguments : list value)
    (w : World) :
  instanceof_Image (argument 0 arguments) = false ->
  Image_new (S fuel) arguments (snd (initialize w)) = Image_new (S fuel) arguments w.
Proof.
  intros Ha. fold (initialized w). simpl. unfold Image_body.
  rewrite Ha, !initialize_then, initialized_idem. reflexivity.
Qed.

(** X8: a list with an element the constructor rejects is rejected with
    that element's error: the images of the elements before it are
    built, then the constructor throws, and no [addBands] is called. *)
Theorem Image_of_list_rejects_element `{Host} (fuel : nat) (before after : list value)
    (bad : value) (w : World) (images : list value) (w1 : World) :
  unrecognized bad = true ->
  mapM (fun elem => Image_new (S fuel) [elem]) before (snd (initialize w))
    = (Returns images, w1) ->
  Image_new (S (S fuel)) [VArray (before ++ bad :: after)] w =
    (Throws (Error [Txt "Unrecognized argument type to convert to an Image: "; Val bad]),
     snd (initialize w1)).
Proof.
  intros Hbad Hbefore.
  change (Image_new (S (S fuel)) [VArray (before ++ bad :: after)] w) with
    ((initialize >>
      (let* images := mapM (fun elem => Image_new (S fuel) [elem])
                           (before ++ bad :: after) in
       combine_ (Image_new (S fuel)) images VUndefined)) w).
  rewrite initialize_then. apply bind_throws.
  eapply mapM_throws; [exact Hbefore|].
  apply Image_new_unrecognized. assumption.
Qed.

(** X9: a list of one element adds no node: [Image([a])] is [Image(a)]
    after [initialize]; for an image [a] it is [a] itself. *)
Theorem Image_of_singleton `{Host} (fuel : nat) (a : value) (w : World)
    (dst src : string) :
  declares (registry w) "Image.addBands" dst "Image" src "Image" ->
  Image_new (S (S fuel)) [VArray [a]] w =
    (initialize >> Image_new (S fuel) [a]) w /\
  (instanceof_Image a = true ->
   Image_new (S (S fuel)) [VArray [a]] w = (Returns a, snd (initialize w))).
Proof.
  intros Hdecl.
  assert (E : Image_new (S (S fuel)) [VArray [a]] w =
              (initialize >> Image_new (S fuel) [a]) w).
  { change (Image_new (S (S fuel)) [VArray [a]] w) with
      ((initialize >>
        (let* images := mapM (fun elem => Image_new (S fuel) [elem]) [a] in
         combine_ (Image_new (S fuel)) images VUndefined)) w).
    rewrite !initialize_then. simpl mapM. rewrite bind_assoc.
    rewrite <- (bind_ret_r (Image_new (S fuel) [a]) (initialized w)).
    eapply bind_ext_keeps.
    - eapply Image_new_keeps. exact Hdecl.
    - apply initialized_registry.
    - intros image w1 Himage _.
      change (combine_ (Image_new (S fuel)) [image] VUndefined w1 = ret image w1).
      unfold combine_.
      rewrite (bind_returns _ _ _ _ _ (Image_new_instance fuel image [] w1 Himage)).
      reflexivity. }
  split; [exact E|].
  intros Ha. rewrite E, initialize_then. apply Image_new_instance. assumption.
Qed.

(* ================================================================== *)
(** * Further properties of cat, rgb, combine_ and select *)

Lemma combine_then `{Host} Image_ images names (k : value -> M value) w :
  truthy names = false ->
  bind (combine_ Image_ images names) k w =
  match images with
  | [] => (Throws (Error [Txt "Can't combine 0 images."]), w)
  | first :: others =>
      (let* result := Image_ [first] in
       let* result :=
         foldM (fun result image => ApiFunction_call Image_ "Image.addBands" [result; image])
               others result in
       k result) w
  end.
Proof.
  intros Hnames. destruct images as [|first others]; [reflexivity|].
  unfold combine_. rewrite Hnames, bind_assoc. apply bind_ext. intros r w1.
  rewrite bind_assoc. apply bind_ext. intros r' w2. apply bind_ret_l.
Qed.

(** With a list of names [combine_] is [select] over the combination
    without names; without one it is that combination. *)
Lemma combine_names_spec `{Host} fuel images names w dst src :
  declares (registry w) "Image.addBands" dst "Image" src "Image" ->
  combine_ (Image_new (S fuel)) images names w =
    if truthy names then
      (let* result := combine_ (Image_new (S fuel)) images VUndefined in
       select (Image_new (S fuel)) result [VArray [VString ".*"]; names]) w
    else combine_ (Image_new (S fuel)) images VUndefined w.
Proof.
  intros Hdecl. destruct (truthy names) eqn:Hnames.
  - transitivity
      (bind (combine_ (Image_new (S fuel)) images VUndefined)
            (fun result => invoke_select (Image_new (S fuel)) result
                             [VArray [VString ".*"]; names]) w).
    + rewrite combine_then by reflexivity.
      destruct images as [|first others]; [reflexivity|].
      unfold combine_. rewrite Hnames. reflexivity.
    + eapply bind_ext_keeps.
      * eapply combine_keeps; [exact Hdecl|].
        intros arguments. eapply Image_new_keeps. exact Hdecl.
      * reflexivity.
      * intros result w' Hresult _. unfold invoke_select.
        rewrite Hresult. reflexivity.
  - rewrite <- (bind_ret_r (combine_ _ images names) w).
    rewrite <- (bind_ret_r (combine_ _ images VUndefined) w).
    rewrite !combine_then by assumption || reflexivity. reflexivity.
Qed.

(** X10: [cat] is the left fold of [addBands]: on images [x, y1, ...,
    yn] it returns [addBands(... addBands(x, y1) ..., yn)], so [cat(x)]
    is [x] itself and [cat(x, y)] is the one [Image.addBands] node over
    [x] and [y]; and the constructor on a list is [cat] of the images of
    its elements. *)
Theorem cat_folds_addBands `{Host} (fuel : nat) (x y : value) (others l : list value)
    (w : World) (dst src : string) :
  instanceof_Image x = true ->
  instanceof_Image y = true ->
  declares (registry w) "Image.addBands" dst "Image" src "Image" ->
  cat (Image_new (S fuel)) (x :: others) w = foldM (addBands (S fuel)) others x w /\
  cat (Image_new (S fuel)) [x] w = (Returns x, w) /\
  cat (Image_new (S fuel)) [x; y] w =
    (Returns (VComputed (1 + next_id w) "Image" (Some (ApiFunction "Image.addBands"))
                [(dst, x); (src, y)] None),
     allocated 2 (initialized w)) /\
  Image_new (S (S fuel)) [VArray l] w =
    (initialize >>
     (let* images := mapM (fun elem => Image_new (S fuel) [elem]) l in
      cat (Image_new (S fuel)) images)) w.
Proof.
  intros Hx Hy Hdecl.
  assert (Hcat : forall others,
    cat (Image_new (S fuel)) (x :: others) w = foldM (addBands (S fuel)) others x w).
  { intros others'. unfold cat.
    rewrite <- (bind_ret_r (combine_ _ _ VNull) w), combine_then by reflexivity.
    rewrite (bind_returns _ _ _ _ _ (Image_new_instance fuel x [] w Hx)).
    apply bind_ret_r. }
  split; [apply Hcat|]. split; [apply (Hcat [])|]. split.
  - rewrite Hcat. simpl foldM. rewrite bind_ret_r. unfold addBands.
    apply ApiFunction_call_2_node with (t1 := "Image") (t2 := "Image");
      [exact Hdecl | apply promote_instance; assumption
       | apply promote_instance; assumption].
  - change (Image_new (S (S fuel)) [VArray l] w) with
      ((initialize >>
        (let* images := mapM (fun elem => Image_new (S fuel) [elem]) l in
         combine_ (Image_new (S fuel)) images VUndefined)) w).
    rewrite !initialize_then. apply bind_ext. intros images w1. unfold cat.
    rewrite <- (bind_ret_r (combine_ _ images VNull) w1).
    rewrite <- (bind_ret_r (combine_ _ images VUndefined) w1).
    rewrite !combine_then by reflexivity. reflexivity.
Qed.

(** X11: a list of names that is truthy makes [combine_] select all
    bands of the combination under the new names; a falsy one ([null],
    [undefined], [false], 0, the empty string) is ignored. *)
Theorem combine_renames_when_named `{Host} (fuel : nat) (images : list value)
    (names : value) (w : World) (dst src : string) :
  declares (registry w) "Image.addBands" dst "Image" src "Image" ->
  combine_ (Image_new (S fuel)) images names w =
    if truthy names then
      (let* result := combine_ (Image_new (S fuel)) images VUndefined in
       select (Image_new (S fuel)) result [VArray [VString ".*"]; names]) w
    else combine_ (Image_new (S fuel)) images VUndefined w.
Proof. apply combine_names_spec. Qed.

(** X12: [rgb(r, g, b)] is [cat(r, g, b)] with all its bands selected
    under the names vis-red, vis-green and vis-blue. *)
Theorem rgb_is_cat_renamed `{Host} (fuel : nat) (r g b : value) (w : World)
    (dst src : string) :
  declares (registry w) "Image.addBands" dst "Image" src "Image" ->
  rgb (Image_new (S fuel)) r g b w =
    (let* image := cat (Image_new (S fuel)) [r; g; b] in
     select (Image_new (S fuel)) image
       [VArray [VString ".*"];
        VArray [VString "vis-red"; VString "vis-green"; VString "vis-blue"]]) w.
Proof.
  intros Hdecl. unfold rgb, cat.
  rewrite (combine_names_spec fuel _ _ w dst src Hdecl). simpl truthy. cbv iota.
  apply bind_cong. symmetry.
  rewrite (combine_names_spec fuel _ VNull w dst src Hdecl). reflexivity.
Qed.

Lemma select_apply `{Host} fuel this sel (names : option value) w t2 t3 :
  instanceof_Image this = true ->
  select_declared (registry w) t2 t3 ->
  String.eqb t2 "Image" = false ->
  String.eqb t3 "Image" = false ->
  promote_other sel t2 w = (Normal sel, w) ->
  (forall n, names = Some n -> promote_other n t3 w = (Normal n, w)) ->
  let args := ("input", this) :: ("bandSelectors", sel)
              :: match names with Some n => [("newNames", n)] | None => [] end in
  ApiFunction_apply (Image_new (S fuel)) "Image.select" args w =
    (Returns (VComputed (1 + next_id w) "Image" (Some (ApiFunction "Image.select"))
                args None),
     allocated 2 (initialized w)).
Proof.
  intros Hthis (s & o1 & o2 & rest & Hs & Hargs & Hnd & Hopt & Hret) Ht2 Ht3 Hsel Hnames args.
  apply NoDup_cons in Hnd as [Hn1 Hnd]. apply NoDup_cons in Hnd as [Hn2 Hnd].
  apply NoDup_cons in Hnd as [Hn3 Hnd].
  assert (Hrest : forall a, a ∈ rest ->
            arg_name a ∉ ["input"; "bandSelectors"; "newNames"]).
  { intros a Ha Hin. apply list_elem_of_fmap_2 with (f := arg_name) in Ha.
    apply elem_of_cons in Hin as [E|Hin].
    { apply Hn1. rewrite <- E. do 2 right. exact Ha. }
    apply elem_of_cons in Hin as [E|Hin].
    { apply Hn2. rewrite <- E. right. exact Ha. }
    apply elem_of_cons in Hin as [E|Hin]; [|inversion Hin].
    apply Hn3. rewrite <- E. exact Ha. }
  assert (Hlook : ApiFunction_lookup "Image.select" w = (Returns s, w)).
  { unfold ApiFunction_lookup. rewrite Hs. reflexivity. }
  assert (Hp1 : promote (Image_new (S fuel)) this "Image" w = (Returns this, w))
    by (apply promote_instance; assumption).
  assert (Hp2 : promote (Image_new (S fuel)) sel t2 w = (Returns sel, w))
    by (unfold promote, lift; rewrite Ht2, Hsel; reflexivity).
  unfold ApiFunction_apply, Function_apply. simpl Function_getSignature.
  rewrite (bind_returns _ _ _ _ _ Hlook), Hargs, Hret.
  subst args. destruct names as [n|].
  - assert (Hp3 : promote (Image_new (S fuel)) n t3 w = (Returns n, w))
      by (unfold promote, lift; rewrite Ht3, (Hnames n eq_refl); reflexivity).
    rewrite (bind_returns _ _ _
               [("input", this); ("bandSelectors", sel); ("newNames", n)] w).
    + unfold declared.
      match goal with |- context [find ?f ?l] =>
        replace (find f l) with (@None (string * value)) by reflexivity end.
      unfold bind at 1. unfold ComputedObject_new at 1.
      change (promote (Image_new (S fuel)) ?v "Image") with (Image_new (S fuel) [v]).
      rewrite Image_new_reinterpret by reflexivity. rewrite initialize_then.
      unfold ComputedObject_new. f_equal.
      * rewrite initialized_next_id. reflexivity.
      * change (mkWorld (S (next_id w)) (registry w) (Image_initialized_ w)
                        (Image_members w)) with (allocated 1 w).
        rewrite initialized_allocated. reflexivity.
    + simpl Function_promoteArgs. simpl arg_type.
      rewrite (bind_returns _ _ _ _ _ Hp1), (bind_returns _ _ _ _ _ Hp2),
              (bind_returns _ _ _ _ _ Hp3).
      simpl obj_set. apply promoteArgs_skipped; [assumption|].
      intros a Ha. apply (Hrest a Ha).
  - rewrite (bind_returns _ _ _ [("input", this); ("bandSelectors", sel)] w).
    + unfold declared.
      match goal with |- context [find ?f ?l] =>
        replace (find f l) with (@None (string * value)) by reflexivity end.
      unfold bind at 1. unfold ComputedObject_new at 1.
      change (promote (Image_new (S fuel)) ?v "Image") with (Image_new (S fuel) [v]).
      rewrite Image_new_reinterpret by reflexivity. rewrite initialize_then.
      unfold ComputedObject_new. f_equal.
      * rewrite initialized_next_id. reflexivity.
      * change (mkWorld (S (next_id w)) (registry w) (Image_initialized_ w)
                        (Image_members w)) with (allocated 1 w).
        rewrite initialized_allocated. reflexivity.
    + simpl Function_promoteArgs. simpl arg_type.
      rewrite (bind_returns _ _ _ _ _ Hp1), (bind_returns _ _ _ _ _ Hp2).
      simpl obj_set. apply promoteArgs_skipped; [assumption|].
      intros a Ha Hin. apply (Hrest a Ha). simpl in Hin. simpl.
      apply elem_of_cons in Hin as [->|Hin]; [left|].
      apply elem_of_cons in Hin as [->|Hin]; [right; left | inversion Hin].
Qed.

(** X13: [select(selectors, names)] with a first argument that is not a
    string or a number (a list, a computed object) builds the
    [Image.select] node over the receiver and that argument, and the
    node has [newNames] exactly when [names] is truthy.  The registry
    declares [Image.select] as [select] calls it, and promotion leaves
    the two values alone. *)
Theorem select_builds_node `{Host} (fuel : nat) (this sel names : value) (w : World)
    (t2 t3 : string) :
  instanceof_Image this = true ->
  isDef sel = true ->
  isString sel || isNumber sel = false ->
  select_declared (registry w) t2 t3 ->
  String.eqb t2 "Image" = false ->
  String.eqb t3 "Image" = false ->
  promote_other sel t2 w = (Normal sel, w) ->
  promote_other names t3 w = (Normal names, w) ->
  select (Image_new (S fuel)) this [sel; names] w =
    (Returns (VComputed (1 + next_id w) "Image" (Some (ApiFunction "Image.select"))
                (("input", this) :: ("bandSelectors", sel)
                 :: if truthy names then [("newNames", names)] else [])
                None),
     allocated 2 (initialized w)).
Proof.
  intros Hthis Hdef Hsel Hdecl Ht2 Ht3 Hp2 Hp3.
  unfold select. cbv zeta.
  change (argument 0 [sel; names]) with sel.
  change (argument 1 [sel; names]) with names.
  replace (negb (isDef sel)) with false by (rewrite Hdef; reflexivity).
  rewrite Hsel.
  destruct (truthy names).
  - apply (select_apply fuel this sel (Some names) w t2 t3); try assumption.
    intros n [= <-]. assumption.
  - apply (select_apply fuel this sel None w t2 t3); try assumption.
    discriminate.
Qed.

(** X14: the spread form takes computed objects too: when the first
    argument is a string or a number and every argument is a string, a
    number or a computed object, [select(s1, ..., sn)] is
    [select([s1, ..., sn])]. *)
Theorem select_spread_computed `{Host} (Image_ : list value -> M value)
    (this first : value) (others : list value) (w : World) :
  isString first || isNumber first = true ->
  find illegal_selector (first :: others) = None ->
  select Image_ this (first :: others) w =
    select Image_ this [VArray (first :: others)] w.
Proof.
  intros Hfirst Hlegal. rewrite select_list.
  unfold select. cbv zeta. change (argument 0 (first :: others)) with first.
  replace (negb (isDef first)) with false
    by (destruct first; try discriminate Hfirst; reflexivity).
  rewrite Hfirst, Hlegal. reflexivity.
Qed.

(* ================================================================== *)
(** * Further properties of expression and initialize *)

(** X15: [expression(e)] without a map is [expression(e, {})]: the
    function has the one parameter [DEFAULT_EXPRESSION_IMAGE], an
    image, and is applied to the receiver alone; when the call of
    [Image.parseExpression] returns, so does [expression]. *)
Theorem expression_without_map `{Host} (fuel : nat) (this e : value) (w : World)
    (body : value) (w2 : World) :
  instanceof_Image this = true ->
  ApiFunction_call (Image_new (S fuel)) "Image.parseExpression"
    [e; VString "DEFAULT_EXPRESSION_IMAGE";
     VArray [VString "DEFAULT_EXPRESSION_IMAGE"]] w = (Returns body, w2) ->
  expression (Image_new (S fuel)) this e None w =
    expression (Image_new (S fuel)) this e (Some []) w /\
  expression (Image_new (S fuel)) this e None w =
    (Returns (VComputed (1 + next_id w2) "Image"
                (Some (CustomFunction body
                         (mkSig "" [mkArg "DEFAULT_EXPRESSION_IMAGE" "Image" false]
                                "Image")))
                [("DEFAULT_EXPRESSION_IMAGE", this)] None),
     allocated 2 (initialized w2)).
Proof.
  intros Hthis Hbody. split; [reflexivity|].
  unfold expression. cbv zeta. rewrite bind_ret_l. cbn [fst snd map].
  rewrite (bind_returns _ _ _ _ _ Hbody).
  unfold Function_apply. simpl Function_getSignature. rewrite bind_ret_l.
  cbn [sig_args sig_returns expression_signature].
  rewrite (bind_returns _ _ _ [("DEFAULT_EXPRESSION_IMAGE", this)] w2).
  - unfold declared.
    match goal with |- context [find ?f ?l] =>
      replace (find f l) with (@None (string * value)) by reflexivity end.
    unfold bind at 1. unfold ComputedObject_new at 1.
    change (promote (Image_new (S fuel)) ?v "Image") with (Image_new (S fuel) [v]).
    rewrite Image_new_reinterpret by reflexivity. rewrite initialize_then.
    unfold ComputedObject_new. f_equal.
    + rewrite initialized_next_id. reflexivity.
    + change (mkWorld (S (next_id w2)) (registry w2) (Image_initialized_ w2)
                      (Image_members w2)) with (allocated 1 w2).
      rewrite initialized_allocated. reflexivity.
  - apply (promoteArgs_images _ [("DEFAULT_EXPRESSION_IMAGE", this)]
             (fun v w' => Image_new_instance fuel v [] w') [] w2).
    + simpl. constructor; [apply not_elem_of_nil | constructor].
    + constructor; [exact Hthis | constructor].
Qed.

(** X16: a map with a value the constructor rejects makes [expression]
    fail with that value's error, once the images of the entries before
    it are built; [Image.parseExpression] is not called. *)
Theorem expression_rejects_value `{Host} (fuel : nat) (this e : value)
    (before after : list (string * value)) (name : string) (bad : value)
    (w : World) (images : list value) (w1 : World) :
  unrecognized bad = true ->
  mapM (fun entry => Image_new (S fuel) [snd entry]) before w = (Returns images, w1) ->
  expression (Image_new (S fuel)) this e (Some (before ++ (name, bad) :: after)) w =
    (Throws (Error [Txt "Unrecognized argument type to convert to an Image: "; Val bad]),
     snd (initialize w1)).
Proof.
  intros Hbad Hbefore. unfold expression. cbv zeta.
  rewrite (bind_cong _ _ _ _ (expression_vars_spec _ _ _ _ _)).
  rewrite bind_assoc. apply bind_throws.
  eapply mapM_throws; [exact Hbefore|].
  apply Image_new_unrecognized. assumption.
Qed.

(** X17: the first [initialize] installs, beside what is there, every
    operation of the registry's [Image] namespace under its own name
    and every operation of the [Window] namespace under [focal_] and
    its name, and nothing else. *)
Theorem initialize_installs (w : World) (member : string) :
  Image_initialized_ w = false ->
  member ∈ Image_members (snd (initialize w)) <->
    member ∈ Image_members w \/
    (exists op, is_Some (registry w !! ("Image" +:+ "." +:+ op)) /\ member = op) \/
    (exists op, is_Some (registry w !! ("Window" +:+ "." +:+ op)) /\
                member = "focal_" +:+ op).
Proof.
  intros Hoff. fold (initialized w). rewrite initialized_off by assumption. simpl.
  rewrite !elem_of_union, !elem_of_bound_names. tauto.
Qed.

(* ================================================================== *)
(** * Properties of getMap, getDownloadURL and getThumbURL *)

Lemma obj_set_obj_set key v v' (props : list (string * value)) :
  obj_set key v (obj_set key v' props) = obj_set key v props.
Proof.
  induction props as [|[k u] props IH]; simpl.
  - rewrite String.eqb_refl. reflexivity.
  - destruct (String.eqb k key) eqn:E; simpl; rewrite E; [reflexivity|].
    rewrite IH. reflexivity.
Qed.

Lemma obj_get_obj_set key v (props : list (string * value)) :
  obj_get key (obj_set key v props) = Some v.
Proof.
  induction props as [|[k u] props IH]; simpl.
  - rewrite String.eqb_refl. reflexivity.
  - destruct (String.eqb k key) eqn:E; simpl; rewrite E; [reflexivity | exact IH].
Qed.

Lemma obj_get_obj_set_other key key' v (props : list (string * value)) :
  key <> key' -> obj_get key' (obj_set key v props) = obj_get key' props.
Proof.
  intros Hne. induction props as [|[k u] props IH]; simpl.
  - destruct (String.eqb_spec key key'); [congruence | reflexivity].
  - destruct (String.eqb_spec k key) as [->|Hk]; simpl.
    + destruct (String.eqb_spec key key'); [congruence | reflexivity].
    + destruct (String.eqb k key'); [reflexivity | exact IH].
Qed.

(** X18: the request of [getMap], [getDownloadURL] and [getThumbURL]
    carries the receiver's serialization as [image].  When
    [this.serialize()] returns [s], each of them calls ee.data on the
    request that has [s] under [image] and the caller's parameters
    under every other key (absent parameters are the empty object), in
    the state the serializer left; when it throws, each throws the same
    and ee.data is not called.  Whatever [image] the caller's
    parameters hold is overwritten: parameters that differ only there
    give the same run. *)
Theorem request_image_is_the_receiver `{Service} (this v : value)
    (params : option (list (string * value))) (props : list (string * value))
    (callback : value -> value -> Ext value) (w : World) :
  match serialize this w with
  | (Normal s, w1) =>
      let request := obj_set "image" s (clone_or_empty params) in
      obj_get "image" request = Some s /\
      (forall key, key <> "image" ->
         obj_get key request = obj_get key (clone_or_empty params)) /\
      getMap this params None w =
        (let* response := lift (data_getMapId request) in
         ret (VObject (obj_set "image" this response))) w1 /\
      getMap this params (Some callback) w =
        (lift (data_getMapId_callback request (getMap_callback this callback)) >>
         ret VUndefined) w1 /\
      getDownloadURL this params None w =
        (let* downloadId := lift (data_getDownloadId request) in
         lift (data_makeDownloadUrl downloadId)) w1 /\
      getDownloadURL this params (Some callback) w =
        (lift (data_getDownloadId_callback request (getDownloadURL_callback callback)) >>
         ret VUndefined) w1 /\
      getThumbURL this params w =
        (let* thumbId := lift (data_getThumbId request) in
         lift (data_makeThumbUrl thumbId)) w1
  | (Thrown e, w1) =>
      getMap this params None w = (Throws e, w1) /\
      getMap this params (Some callback) w = (Throws e, w1) /\
      getDownloadURL this params None w = (Throws e, w1) /\
      getDownloadURL this params (Some callback) w = (Throws e, w1) /\
      getThumbURL this params w = (Throws e, w1)
  end /\
  (forall opt_callback,
     getMap this (Some (obj_set "image" v props)) opt_callback w
       = getMap this (Some props) opt_callback w /\
     getDownloadURL this (Some (obj_set "image" v props)) opt_callback w
       = getDownloadURL this (Some props) opt_callback w) /\
  getThumbURL this (Some (obj_set "image" v props)) w
    = getThumbURL this (Some props) w.
Proof.
  split; [|split; [intros opt_callback; split|]];
    try (unfold getMap, getDownloadURL, getThumbURL, clone_or_empty;
         apply bind_ext; intros image w'; rewrite obj_set_obj_set; reflexivity).
  destruct (serialize this w) as [[s|e] w1] eqn:Hs.
  - assert (Hser : lift (serialize this) w = (Returns s, w1))
      by (unfold lift; rewrite Hs; reflexivity).
    cbv zeta. split; [apply obj_get_obj_set|].
    split; [intros key Hkey; apply obj_get_obj_set_other; congruence|].
    unfold getMap, getDownloadURL, getThumbURL.
    rewrite !(bind_returns _ _ _ _ _ Hser). repeat split; reflexivity.
  - assert (Hser : lift (serialize this) w = (Throws e, w1))
      by (unfold lift; rewrite Hs; reflexivity).
    unfold getMap, getDownloadURL, getThumbURL.
    rewrite !(bind_throws _ _ _ _ _ Hser). repeat split; reflexivity.
Qed.

(** X19: without a callback [getMap] returns the response of
    ee.data.getMapId to the request (the parameters with the
    serialization as [image]) with the image object itself put in as
    [image]: every other entry of the response is kept.  With a
    callback it returns nothing, and the callback gets the image in the
    data when there is data and the data as it is when there is none. *)
Theorem getMap_attaches_the_image `{Service} (this : value)
    (params response : list (string * value)) (s : value) (w w1 w2 : World)
    (callback : value -> value -> Ext value) (data error : value) :
  serialize this w = (Normal s, w1) ->
  data_getMapId (obj_set "image" s params) w1 = (Normal response, w2) ->
  getMap this (Some params) None w =
    (Returns (VObject (obj_set "image" this response)), w2) /\
  obj_get "image" (obj_set "image" this response) = Some this /\
  (forall key, key <> "image" ->
     obj_get key (obj_set "image" this response) = obj_get key response) /\
  getMap this (Some params) (Some callback) w =
    (lift (data_getMapId_callback (obj_set "image" s params)
             (getMap_callback this callback)) >> ret VUndefined) w1 /\
  getMap_callback this callback (VObject response) error =
    callback (VObject (obj_set "image" this response)) error /\
  (truthy data = false -> getMap_callback this callback data error = callback data error).
Proof.
  intros Hs Hresponse.
  assert (Hser : lift (serialize this) w = (Returns s, w1))
    by (unfold lift; rewrite Hs; reflexivity).
  split; [|split; [|split; [|split; [|split]]]].
  - unfold getMap, clone_or_empty. rewrite (bind_returns _ _ _ _ _ Hser).
    unfold bind, lift. rewrite Hresponse. reflexivity.
  - apply obj_get_obj_set.
  - intros key Hkey. apply obj_get_obj_set_other. congruence.
  - unfold getMap, clone_or_empty. rewrite (bind_returns _ _ _ _ _ Hser). reflexivity.
  - reflexivity.
  - intros Hdata. unfold getMap_callback. rewrite Hdata. reflexivity.
Qed.

(* ================================================================== *)
(** * How cat grows *)

Lemma foldM_app {A B} (f : A -> B -> M A) l1 l2 acc w :
  foldM f (l1 ++ l2) acc w = bind (foldM f l1 acc) (foldM f l2) w.
Proof.
  revert acc w. induction l1 as [|x l1 IH]; intros acc w; simpl.
  - rewrite bind_ret_l. reflexivity.
  - rewrite bind_assoc. apply bind_ext. intros acc' w'. apply IH.
Qed.

(** X20: one more image at the end of [cat] is one more [addBands]
    around the rest: for an image [x],
    [cat(x, y1, ..., yn, y) = addBands(cat(x, y1, ..., yn), y)]. *)
Theorem cat_of_one_more `{Host} (fuel : nat) (x y : value) (others : list value)
    (w : World) :
  instanceof_Image x = true ->
  cat (Image_new (S fuel)) (x :: others ++ [y]) w =
    (let* result := cat (Image_new (S fuel)) (x :: others) in
     addBands (S fuel) result y) w.
Proof.
  intros Hx. unfold cat.
  rewrite <- (bind_ret_r (combine_ _ (x :: others ++ [y]) VNull) w).
  rewrite !combine_then by reflexivity.
  rewrite !(bind_returns _ _ _ _ _ (Image_new_instance fuel x [] w Hx)).
  rewrite bind_ret_r, foldM_app. apply bind_ext. intros result w1.
  simpl foldM. apply bind_ret_r.
Qed.

(* ================================================================== *)
(** * The further properties on the sample registry *)

Lemma sample_declares_select (w : World) :
  registry w = sample_registry -> select_declared (registry w) "List" "List".
Proof.
  intros ->.
  exists (mkSig "Image.select"
            [mkArg "input" "Image" false; mkArg "bandSelectors" "List" false;
             mkArg "newNames" "List" true] "Image"),
         false, false, [].
  split; [reflexivity|]. split; [reflexivity|]. split; [|split; [|reflexivity]].
  - simpl map. apply (bool_decide_unpack (NoDup _)). vm_compute. exact I.
  - constructor.
Qed.

Lemma Image_rejects_unrecognized_witness :
  unrecognized VNull = true /\
  @Image_new sample_host 1 [VNull] sample_world =
    (Throws (Error [Txt "Unrecognized argument type to convert to an Image: "; Val VNull]),
     initialized sample_world).
Proof.
  split; [reflexivity|].
  exact (proj1 (@Image_rejects_unrecognized sample_host 0 VNull sample_world eq_refl)).
Defined.

Lemma Image_rejects_two_arguments_witness :
  instanceof_Image (VNumber 1) = false /\
  isString (VNumber 1) && isNumber (VString "a") = false /\
  @Image_new sample_host 1 [VNumber 1; VString "a"] sample_world =
    (Throws (Error [Txt "Unrecognized argument types to convert to an Image: ";
                    Args [VNumber 1; VString "a"]]),
     initialized sample_world).
Proof.
  split; [reflexivity|]. split; [reflexivity|].
  exact (@Image_rejects_two_arguments sample_host 0 (VNumber 1) (VString "a")
           sample_world eq_refl eq_refl).
Defined.

Lemma Image_rejects_more_arguments_witness :
  instanceof_Image (argument 0 [VString "a"; VNumber 1; VNumber 2]) = false /\
  2 < length [VString "a"; VNumber 1; VNumber 2] /\
  @Image_new sample_host 1 [VString "a"; VNumber 1; VNumber 2] sample_world =
    (Throws (Error [Txt "The Image constructor takes at most 2 arguments (";
                    Count 3; Txt " given)"]),
     initialized sample_world).
Proof.
  split; [reflexivity|]. split; [simpl; lia|].
  exact (@Image_rejects_more_arguments sample_host 0
           [VString "a"; VNumber 1; VNumber 2] sample_world eq_refl
           (le_n 3)).
Defined.

Lemma Image_of_computed_witness :
  String.eqb "Geometry" "Image" = false /\
  @Image_new sample_host 1 [VComputed 4 "Geometry" None [("type", VString "Point")] None]
      sample_world =
    (Returns (VComputed 0 "Image" None [("type", VString "Point")] None),
     allocated 1 (initialized sample_world)).
Proof.
  split; [reflexivity|].
  exact (@Image_of_computed sample_host 0 4 "Geometry" None
           [("type", VString "Point")] None sample_world eq_refl).
Defined.

Lemma Image_returns_images_witness :
  cost (VArray [VNumber 1; VArray [VString "a"]]) <= 3 /\
  fst (@Image_new sample_host 3 [VArray [VNumber 1; VArray [VString "a"]]] sample_world)
    <> Diverges.
Proof.
  assert (Hcost : cost (VArray [VNumber 1; VArray [VString "a"]]) <= 3)
    by (vm_compute; lia).
  split; [exact Hcost|].
  exact (proj1 (@Image_returns_images sample_host 3
                  (VArray [VNumber 1; VArray [VString "a"]]) sample_world
                  "dstImg" "srcImg" sample_declares_addBands Hcost)).
Defined.

Lemma Image_of_constructed_witness :
  (let* image := @Image_new sample_host 2 [VArray [VNumber 1; VNumber 2]] in
   @Image_new sample_host 2 [image]) sample_world =
  @Image_new sample_host 2 [VArray [VNumber 1; VNumber 2]] sample_world.
Proof.
  exact (@Image_of_constructed sample_host 1 [VArray [VNumber 1; VNumber 2]]
           sample_world "dstImg" "srcImg" sample_declares_addBands).
Defined.

Lemma Image_initializes_itself_witness :
  instanceof_Image (argument 0 [VString "a"]) = false /\
  @Image_new sample_host 1 [VString "a"] (snd (initialize sample_world)) =
  @Image_new sample_host 1 [VString "a"] sample_world.
Proof.
  split; [reflexivity|].
  exact (@Image_initializes_itself sample_host 0 [VString "a"] sample_world eq_refl).
Defined.

Lemma Image_of_list_rejects_element_witness :
  unrecognized (VBool true) = true /\
  @Image_new sample_host 2 [VArray ([VNumber 1] ++ VBool true :: [VNumber 2])] sample_world =
    (Throws (Error [Txt "Unrecognized argument type to convert to an Image: ";
                    Val (VBool true)]),
     snd (initialize (allocated 1 (initialized sample_world)))).
Proof.
  split; [reflexivity|].
  exact (@Image_of_list_rejects_element sample_host 0 [VNumber 1] [VNumber 2]
           (VBool true) sample_world [constant_image 0 1]
           (allocated 1 (initialized sample_world)) eq_refl eq_refl).
Defined.

Lemma Image_of_singleton_witness :
  @Image_new sample_host 2 [VArray [VString "a"]] sample_world =
    (initialize >> @Image_new sample_host 1 [VString "a"]) sample_world.
Proof.
  exact (proj1 (@Image_of_singleton sample_host 0 (VString "a") sample_world
                  "dstImg" "srcImg" sample_declares_addBands)).
Defined.

Lemma cat_folds_addBands_witness :
  instanceof_Image (constant_image 0 1) = true /\
  instanceof_Image (constant_image 1 2) = true /\
  @cat sample_host (@Image_new sample_host 1) [constant_image 0 1; constant_image 1 2]
      (mkWorld 2 sample_registry true ∅) =
    (Returns (VComputed 3 "Image" (Some (ApiFunction "Image.addBands"))
                [("dstImg", constant_image 0 1); ("srcImg", constant_image 1 2)] None),
     allocated 2 (initialized (mkWorld 2 sample_registry true ∅))).
Proof.
  split; [reflexivity|]. split; [reflexivity|].
  exact (proj1 (proj2 (proj2
           (@cat_folds_addBands sample_host 0 (constant_image 0 1) (constant_image 1 2)
              [] [] (mkWorld 2 sample_registry true ∅) "dstImg" "srcImg"
              eq_refl eq_refl sample_declares_addBands)))).
Defined.

Lemma combine_renames_when_named_witness :
  @combine_ sample_host (@Image_new sample_host 1) [VNumber 1; VNumber 2]
      (VArray [VString "a"; VString "b"]) sample_world =
    (let* result := @combine_ sample_host (@Image_new sample_host 1)
                      [VNumber 1; VNumber 2] VUndefined in
     @select sample_host (@Image_new sample_host 1) result
       [VArray [VString ".*"]; VArray [VString "a"; VString "b"]]) sample_world.
Proof.
  exact (@combine_renames_when_named sample_host 0 [VNumber 1; VNumber 2]
           (VArray [VString "a"; VString "b"]) sample_world "dstImg" "srcImg"
           sample_declares_addBands).
Defined.

Lemma rgb_is_cat_renamed_witness :
  @rgb sample_host (@Image_new sample_host 1) (VNumber 1) (VNumber 2) (VNumber 3)
      sample_world =
    (let* image := @cat sample_host (@Image_new sample_host 1)
                     [VNumber 1; VNumber 2; VNumber 3] in
     @select sample_host (@Image_new sample_host 1) image
       [VArray [VString ".*"];
        VArray [VString "vis-red"; VString "vis-green"; VString "vis-blue"]])
    sample_world.
Proof.
  exact (@rgb_is_cat_renamed sample_host 0 (VNumber 1) (VNumber 2) (VNumber 3)
           sample_world "dstImg" "srcImg" sample_declares_addBands).
Defined.

Lemma select_builds_node_witness :
  isString (VArray [VString "B1"]) || isNumber (VArray [VString "B1"]) = false /\
  @select sample_host (@Image_new sample_host 1) (constant_image 0 1)
      [VArray [VString "B1"]; VArray [VString "red"]] (mkWorld 1 sample_registry true ∅) =
    (Returns (VComputed 2 "Image" (Some (ApiFunction "Image.select"))
                [("input", constant_image 0 1);
                 ("bandSelectors", VArray [VString "B1"]);
                 ("newNames", VArray [VString "red"])] None),
     allocated 2 (initialized (mkWorld 1 sample_registry true ∅))).
Proof.
  split; [reflexivity|].
  exact (@select_builds_node sample_host 0 (constant_image 0 1)
           (VArray [VString "B1"]) (VArray [VString "red"])
           (mkWorld 1 sample_registry true ∅) "List" "List"
           eq_refl eq_refl eq_refl
           (sample_declares_select (mkWorld 1 sample_registry true ∅) eq_refl)
           eq_refl eq_refl eq_refl eq_refl).
Defined.

Lemma select_spread_computed_witness :
  find illegal_selector [VString "B1"; constant_image 3 2] = None /\
  @select sample_host (@Image_new sample_host 1) (constant_image 0 1)
      [VString "B1"; constant_image 3 2] sample_world =
  @select sample_host (@Image_new sample_host 1) (constant_image 0 1)
      [VArray [VString "B1"; constant_image 3 2]] sample_world.
Proof.
  split; [reflexivity|].
  exact (@select_spread_computed sample_host (@Image_new sample_host 1)
           (constant_image 0 1) (VString "B1") [constant_image 3 2] sample_world
           eq_refl eq_refl).
Defined.

Lemma expression_without_map_witness :
  instanceof_Image (constant_image 0 1) = true /\
  fst (@expression sample_host (@Image_new sample_host 1) (constant_image 0 1)
         (VString "b1") None (mkWorld 1 sample_registry true ∅)) =
    Returns
      (VComputed 3 "Image"
         (Some (CustomFunction
                  (VComputed 1 "ComputedObject" (Some (ApiFunction "Image.parseExpression"))
                     [("expression", VString "b1");
                      ("argName", VString "DEFAULT_EXPRESSION_IMAGE");
                      ("vars", VArray [VString "DEFAULT_EXPRESSION_IMAGE"])] None)
                  (mkSig "" [mkArg "DEFAULT_EXPRESSION_IMAGE" "Image" false] "Image")))
         [("DEFAULT_EXPRESSION_IMAGE", constant_image 0 1)] None).
Proof.
  split; [reflexivity|].
  exact (f_equal fst
           (proj2 (@expression_without_map sample_host 0 (constant_image 0 1)
                     (VString "b1") (mkWorld 1 sample_registry true ∅)
                     (VComputed 1 "ComputedObject"
                        (Some (ApiFunction "Image.parseExpression"))
                        [("expression", VString "b1");
                         ("argName", VString "DEFAULT_EXPRESSION_IMAGE");
                         ("vars", VArray [VString "DEFAULT_EXPRESSION_IMAGE"])] None)
                     (mkWorld 2 sample_registry true ∅) eq_refl eq_refl))).
Defined.

Lemma expression_rejects_value_witness :
  unrecognized VNull = true /\
  @expression sample_host (@Image_new sample_host 1) (constant_image 0 1)
      (VString "b1+b2") (Some ([("b1", VNumber 2)] ++ ("b2", VNull) :: []))
      (mkWorld 1 sample_registry true ∅) =
    (Throws (Error [Txt "Unrecognized argument type to convert to an Image: "; Val VNull]),
     snd (initialize (mkWorld 2 sample_registry true ∅))).
Proof.
  split; [reflexivity|].
  exact (@expression_rejects_value sample_host 0 (constant_image 0 1) (VString "b1+b2")
           [("b1", VNumber 2)] [] "b2" VNull (mkWorld 1 sample_registry true ∅)
           [constant_image 1 2] (mkWorld 2 sample_registry true ∅) eq_refl eq_refl).
Defined.

Lemma initialize_installs_witness :
  Image_initialized_ sample_world = false /\
  "focal_max" ∈ Image_members (snd (initialize sample_world)).
Proof.
  split; [reflexivity|].
  apply (proj2 (initialize_installs sample_world "focal_max" eq_refl)).
  right. right. exists "max". split; [|reflexivity].
  exists (mkSig "Window.max"
            [mkArg "image" "Image" false; mkArg "radius" "Float" false] "Image").
  reflexivity.
Defined.

Lemma getMap_attaches_the_image_witness :
  @getMap sample_service (constant_image 0 1) (Some [("min", VNumber 0)]) None sample_world =
    (Returns (VObject (obj_set "image" (constant_image 0 1)
                         [("mapid", VString "m1"); ("min", VNumber 0);
                          ("image", VString "json")])),
     sample_world).
Proof.
  exact (proj1 (@getMap_attaches_the_image sample_service (constant_image 0 1)
                  [("min", VNumber 0)]
                  [("mapid", VString "m1"); ("min", VNumber 0); ("image", VString "json")]
                  (VString "json") sample_world sample_world sample_world
                  (fun _ _ w => (Normal VUndefined, w)) VNull VNull eq_refl eq_refl)).
Defined.

Lemma cat_of_one_more_witness :
  instanceof_Image (constant_image 0 1) = true /\
  @cat sample_host (@Image_new sample_host 1)
      (constant_image 0 1 :: [VNumber 2] ++ [VNumber 3]) (mkWorld 1 sample_registry true ∅) =
    (let* result := @cat sample_host (@Image_new sample_host 1)
                      (constant_image 0 1 :: [VNumber 2]) in
     @addBands sample_host 1 result (VNumber 3)) (mkWorld 1 sample_registry true ∅).
Proof.
  split; [reflexivity|].
  exact (@cat_of_one_more sample_host 0 (constant_image 0 1) (VNumber 3) [VNumber 2]
           (mkWorld 1 sample_registry true ∅) eq_refl).
Defined.
